(** * Tone-mapping curve construction of libxcam: a shallow embedding

    Source files embedded here:
    - [xcore/cl_newtonemapping_handler.cpp]: [Haleq], [Block_split_haleq]
      and the block loop of [CLNewTonemappingImageKernel::prepare_arguments];
    - [xcore/cl_tonemapping_handler.cpp]: the global target estimation of
      [CLTonemappingImageKernel::prepare_arguments].

    Conventions of the embedding.
    - C [int] values are integers of [Z].  The sums, products and indices
      of the source stay far below 2^31 for histograms of up to 2^16 bins
      and the cell counts of a statistics grid, so wrap-around is not
      written out.  C integer division and remainder truncate towards zero
      and are [Z.quot] and [Z.rem].
    - C arrays are lists read and written through [rd] and [wr], which
      return [Fault] for an index outside the array (undefined behaviour in
      the source): a run that ends in [Done] has made every array access
      in bounds.  Arrays obtained by [new T[n]] or declared without
      initialiser start with arbitrary contents, given by a [junk] stream.
    - [float] values that hold whole or half numbers below 2^24 (bin
      indices, anchors, the midpoints of [Haleq]) are exact in binary32 and
      are kept in [Z] or [Q].  The genuinely fractional quantities (the
      curve values [i / 255.0f], the global targets) are rationals of [Q]:
      the rounding of the last bit is not modelled.
    - The logarithmic prologue of [Block_split_haleq] calls [log] of the
      C library; its three results that reach integer code ([thres] and the
      two rounded compressed indices) are the fields of [log_stage]. *)

From Stdlib Require Import ZArith QArith Qround Lia Bool.
From stdpp Require Import base list.

Local Open Scope Z_scope.

(** * The embedding *)

(** ** Outcomes of a run *)

(** A run completes with a result, or stops at an access outside an array
    or an integer division by zero, or (for the recursion of [Haleq]) at the
    end of its budget of nested activations. *)
Inductive outcome (A : Type) : Type :=
| Done (a : A)
| Fault
| OutOfFuel.

Arguments Done {A} a.
Arguments Fault {A}.
Arguments OutOfFuel {A}.

Definition obind {A B : Type} (o : outcome A) (k : A -> outcome B) : outcome B :=
  match o with
  | Done a => k a
  | Fault => Fault
  | OutOfFuel => OutOfFuel
  end.

Notation "'let*' x ':=' e 'in' k" := (obind e (fun x => k))
  (at level 10, x name, e at level 200, k at level 200).

(** ** Arrays with checked accesses *)

(** [a[i]] as a value, and [a[i] = v]. *)
Definition rd {A : Type} (a : list A) (i : Z) : outcome A :=
  if i <? 0 then Fault
  else match a !! Z.to_nat i with
       | Some v => Done v
       | None => Fault
       end.

Definition wr {A : Type} (a : list A) (i : Z) (v : A) : outcome (list A) :=
  if (0 <=? i) && (i <? Z.of_nat (length a))
  then Done (<[Z.to_nat i := v]> a)
  else Fault.

(** [new T[n]] without initialiser: [n] cells of arbitrary contents. *)
Definition alloc {A : Type} (junk : nat -> A) (n : Z) : list A :=
  map junk (seq 0 (Z.to_nat n)).

(** The length of an array as an [int]. *)
Definition alen {A : Type} (a : list A) : Z := Z.of_nat (length a).

(** The cell at [i], or 0 outside the array. *)
Definition aget (a : list Z) (i : Z) : Z :=
  match rd a i with Done v => v | _ => 0 end.

(** ** Counted loops *)

(** [for (i = lo; i < lo + n; i++) s = body i s], stopping at a fault. *)
Fixpoint for_up {S : Type} (n : nat) (i : Z)
    (body : Z -> S -> outcome S) (s : S) : outcome S :=
  match n with
  | O => Done s
  | Datatypes.S n' => let* s' := body i s in for_up n' (i + 1) body s'
  end.

(** [for (i = lo; i < hi; i++)]. *)
Definition for_range {S : Type} (lo hi : Z)
    (body : Z -> S -> outcome S) (s : S) : outcome S :=
  for_up (Z.to_nat (hi - lo)) lo body s.

(** ** Conversions between [int] and [float] *)

(** [(int) x]: truncation towards zero. *)
Definition float_to_int (x : Q) : Z := Z.quot (Qnum x) (Z.pos (Qden x)).

(** ** Sums over index ranges *)

(** Sums over the first [n] indices. *)
Fixpoint zsum_upto (f : Z -> Z) (n : nat) : Z :=
  match n with
  | O => 0
  | Datatypes.S n' => zsum_upto f n' + f (Z.of_nat n')
  end.

(** Sum of the cells below [j], and of their positive parts. *)
Definition csum (a : list Z) (j : Z) : Z := zsum_upto (aget a) (Z.to_nat j).
Definition psum (a : list Z) (j : Z) : Z :=
  zsum_upto (fun k => Z.max 0 (aget a k)) (Z.to_nat j).

(** ** [Haleq] (cl_newtonemapping_handler.cpp, lines 37-63) *)

(** [fuel] bounds the nesting of the recursive calls.  [e] and [le] are
    the [float] variables of the source; their values are whole or half
    numbers, on which binary32 arithmetic is exact. *)
Fixpoint Haleq_fuel (fuel : nat) (y hist hist_leq : list Z)
    (left right level index_left index_right : Z) : outcome (list Z) :=
  match fuel with
  | O => OutOfFuel
  | Datatypes.S fuel' =>
    let l := Z.quot (left + right) 2 in
    let* num_left := (if 0 <? left then rd hist (left - 1) else Done 0) in
    let* hist_right := rd hist right in
    let pixel_num := hist_right - num_left in
    let* y_rank := rd y (num_left + Z.quot pixel_num 2) in
    let e : Q := inject_Z y_rank in
    let le : Q :=
      if negb (Qeq_bool e 0)
      then ((1 # 2) * (e - inject_Z l) + inject_Z l)%Q
      else inject_Z l in
    let index := Z.quot (index_left + index_right) 2 in
    let cut := float_to_int (le + (1 # 2))%Q in
    let* hist_leq1 := wr hist_leq index cut in
    if 5 <? level then Done hist_leq1
    else
      let* hist_leq2 := Haleq_fuel fuel' y hist hist_leq1
                     left cut (level + 1) index_left index in
      Haleq_fuel fuel' y hist hist_leq2
        (cut + 1) right (level + 1) (index + 1) index_right
  end.

(** Number of nested activations a call at [level] can need: the call
    itself and one more per level up to 5. *)
Definition Haleq_depth (level : Z) : nat := Z.to_nat (Z.max 1 (7 - level)).

(** The function of the source: [Haleq_fuel] with the activations its
    level can need. *)
Definition Haleq (y hist hist_leq : list Z)
    (left right level index_left index_right : Z) : outcome (list Z) :=
  Haleq_fuel (Haleq_depth level) y hist hist_leq
    left right level index_left index_right.

(** ** [Block_split_haleq] (cl_newtonemapping_handler.cpp, lines 65-199) *)

(** What the floating-point prologue (lines 79-116) hands to the integer
    code for the histogram at hand: [thres], and the rounded compressed
    index [(int)((log(i + t0) - t0_log) * factor0 + 0.5f)] of the normal
    range and [(int)((log(r + t1) - t1_log) * factor1 + 0.5f)] of the
    highlight range, as functions of [i] and [r]. *)
Record log_stage : Type := {
  ls_thres : Z;
  ls_index0 : Z -> Z;
  ls_index1 : Z -> Z
}.

(** Initial contents of the four arrays the function does not initialise. *)
Record junk : Type := {
  junk_sort_y : nat -> Z;
  junk_map_index_leq : nat -> Z;
  junk_map_index_log : nat -> Z;
  junk_map_leq_index : nat -> Z
}.

(** Lines 70-77: [i] runs from [n - 1] down to 0 and stops at the first
    non-empty bin; [y_max] keeps its initial 0 when there is none. *)
Fixpoint find_top (n : nat) (hist : list Z) : outcome Z :=
  match n with
  | O => Done 0
  | Datatypes.S n' =>
    let* h := rd hist (Z.of_nat n') in
    if 0 <? h then Done (Z.of_nat n') else find_top n' hist
  end.

(** Lines 79-82 read every bin; the sum only feeds [ls_thres]. *)
Definition read_all (hist : list Z) (hist_bin_count : Z) : outcome unit :=
  for_range 0 hist_bin_count (fun i u => let* _ := rd hist i in Done u) tt.

(** [hist_log[index] += hist[i]; map_index_log[i] = index;] *)
Definition log_bin (hist : list Z) (i index : Z) (st : list Z * list Z)
    : outcome (list Z * list Z) :=
  let* h := rd hist i in
  let* old := rd (fst st) index in
  let* hist_log := wr (fst st) index (old + h) in
  let* map_index_log := wr (snd st) i index in
  Done (hist_log, map_index_log).

(** Lines 118-150.  The last loop reads [map_index_log[y_max - 1]] twice
    in the source; nothing writes that cell in between. *)
Definition compress (ls : log_stage) (hist : list Z)
    (hist_bin_count y_max : Z) (st : list Z * list Z)
    : outcome (list Z * list Z) :=
  let thres := ls_thres ls in
  let y_max0 := if thres <? y_max then thres else y_max in
  let* st1 :=
    if y_max <? thres then
      for_range 0 y_max (fun i st => log_bin hist i (ls_index0 ls i) st) st
    else
      let* st0 :=
        for_range 0 y_max0
          (fun i st => log_bin hist i (ls_index0 ls i) st) st in
      for_range y_max0 y_max
        (fun i st =>
           let r := y_max - i in
           let index := ls_index1 ls r in
           let index := y_max - index in
           log_bin hist i index st) st0 in
  for_range y_max hist_bin_count
    (fun i st =>
       let* last := rd (snd st) (y_max - 1) in
       log_bin hist i last st) st1.

(** Lines 152-161.  The state of the loops is [sort_y] and [sort_index];
    the bound [hist_log[i]] of the inner loop does not change while it
    runs. *)
Definition fill_sort_y (hist_log : list Z) (hist_bin_count : Z)
    (sort_y : list Z) : outcome (list Z) :=
  let* st :=
    for_range 0 hist_bin_count
      (fun i st =>
         let* count := rd hist_log i in
         for_range 0 count
           (fun _ st =>
              let* sort_y := wr (fst st) (snd st) i in
              Done (sort_y, snd st + 1)) st)
      (sort_y, 1) in
  wr (fst st) 0 0.

(** Lines 163-166. *)
Definition accumulate (hist_log : list Z) (hist_bin_count : Z)
    : outcome (list Z) :=
  for_range 1 hist_bin_count
    (fun i hist_log =>
       let* prev := rd hist_log (i - 1) in
       let* cur := rd hist_log i in
       wr hist_log i (cur + prev)) hist_log.

(** Lines 177-179, one iteration. *)
Definition repair_step (i : Z) (m : list Z) : outcome (list Z) :=
  let* m1 :=
    if Z.rem i 2 =? 0 then
      let* a := rd m (i - 1) in
      let* b := rd m (i + 1) in
      wr m i (Z.quot (a + b) 2)
    else Done m in
  let* cur := rd m1 i in
  let* prev := rd m1 (i - 1) in
  if cur <? prev then wr m1 i prev else Done m1.

(** Lines 172-180: the end points, then the loop over slots 1 to 254. *)
Definition repair (hist_bin_count : Z) (map_leq_index : list Z)
    : outcome (list Z) :=
  let* m := wr map_leq_index 255 hist_bin_count in
  let* m := wr m 0 0 in
  for_range 1 255 repair_step m.

(** Lines 182-188; the cells hold the whole numbers [(float)i]. *)
Definition expand (map_leq_index : list Z) (map_index_leq : list Z)
    : outcome (list Z) :=
  for_range 0 255
    (fun i a =>
       let* lo := rd map_leq_index i in
       let* hi := rd map_leq_index (i + 1) in
       for_range lo hi (fun k a => wr a k i) a) map_index_leq.

(** Lines 190-193: [map_hist[i + block_start_index]] receives
    [map_index_leq[map_index_log[i]] / 255.0f]. *)
Definition emit (map_index_log map_index_leq : list Z)
    (hist_bin_count block_start_index : Z) (map_hist : list Q)
    : outcome (list Q) :=
  for_range 0 hist_bin_count
    (fun i t =>
       let* c := rd map_index_log i in
       let* v := rd map_index_leq c in
       wr t (i + block_start_index) (inject_Z v / 255)%Q) map_hist.

(** The function: lines 67-84 find [y_max], lines 87-95 allocate,
    then the stages above in the order of the source. *)
Definition Block_split_haleq (ls : log_stage) (jk : junk) (hist : list Z)
    (hist_bin_count pixel_num block_start_index : Z) (map_hist : list Q)
    : outcome (list Q) :=
  let* top := find_top (Z.to_nat hist_bin_count) hist in
  let* _ := read_all hist hist_bin_count in
  let y_max := top + 1 in
  let hist_log := replicate (Z.to_nat hist_bin_count) 0 in
  let sort_y := alloc (junk_sort_y jk) (pixel_num + 1) in
  let map_index_leq := alloc (junk_map_index_leq jk) hist_bin_count in
  let map_index_log := alloc (junk_map_index_log jk) hist_bin_count in
  let* st := compress ls hist hist_bin_count y_max (hist_log, map_index_log) in
  let hist_log := fst st in
  let map_index_log := snd st in
  let* sort_y := fill_sort_y hist_log hist_bin_count sort_y in
  let* hist_log := accumulate hist_log hist_bin_count in
  let map_leq_index := alloc (junk_map_leq_index jk) 256 in
  let* map_leq_index :=
    Haleq sort_y hist_log map_leq_index 0 (hist_bin_count - 1) 0 0 255 in
  let* map_leq_index := repair hist_bin_count map_leq_index in
  let* map_index_leq := expand map_leq_index map_index_leq in
  emit map_index_log map_index_leq hist_bin_count block_start_index map_hist.

(** ** The block loop of [CLNewTonemappingImageKernel::prepare_arguments]
    (cl_newtonemapping_handler.cpp, lines 226-263) *)

Module NewTonemapping.

Definition block_factor : Z := 4.

(** What one iteration of the two nested loops works on. *)
Record block_geom : Type := {
  bg_block_start_index : Z;
  bg_start_index : Z;
  bg_height : Z;
  bg_totalnum : Z
}.

(** Lines 238-251, with [height_per_block] as the variable stands when
    the iteration begins. *)
Definition block_geometry (width height hist_bin_count : Z)
    (block_row block_col height_per_block : Z) : block_geom :=
  let width_per_block := Z.quot width block_factor in
  let height_last_block :=
    Z.quot height block_factor + Z.rem height block_factor in
  let block_start_index :=
    (block_row * block_factor + block_col) * hist_bin_count in
  let start_index :=
    block_row * height_per_block * width + block_col * width_per_block in
  let height_per_block :=
    if block_row =? block_factor - 1 then height_last_block
    else height_per_block in
  {| bg_block_start_index := block_start_index;
     bg_start_index := start_index;
     bg_height := height_per_block;
     bg_totalnum := width_per_block * height_per_block |}.

(** Lines 241-244 and 252-259: the histogram of the cells
    [start_index + i * width + j]. *)
Definition block_hist (stats : list Z) (width hist_bin_count : Z)
    (g : block_geom) : outcome (list Z) :=
  for_range 0 (bg_height g)
    (fun i h =>
       for_range 0 (Z.quot width block_factor)
         (fun j h =>
            let* y := rd stats (bg_start_index g + i * width + j) in
            let* count := rd h y in
            wr h y (count + 1)) h)
    (replicate (Z.to_nat hist_bin_count) 0).

(** The two nested loops of lines 234-263 around the work [body] on one
    block.  The state carries the variable [height_per_block], which line
    248 overwrites in the last block row. *)
Definition block_loop {T : Type} (width height hist_bin_count : Z)
    (body : block_geom -> T -> outcome T) (t : T) : outcome (Z * T) :=
  for_range 0 block_factor
    (fun block_row st =>
       for_range 0 block_factor
         (fun block_col st =>
            let g := block_geometry width height hist_bin_count
                       block_row block_col (fst st) in
            let* t' := body g (snd st) in
            Done (bg_height g, t')) st)
    (Z.quot height block_factor, t).

(** Lines 226-263.  [prologue] gives the floating-point prologue of
    [Block_split_haleq] for a histogram and its pixel count, [jk] the
    uninitialised memory of the call for a block.  [stats] holds the
    [avg_y] field of the grid cells, row by row. *)
Definition prepare_arguments (prologue : list Z -> Z -> log_stage)
    (jk : Z -> junk) (stats : list Z) (width height bit_depth : Z)
    (map_hist : list Q) : outcome (list Q) :=
  let hist_bin_count := Z.shiftl 1 bit_depth in
  let* st :=
    block_loop width height hist_bin_count
      (fun g map_hist =>
         let* hist_per_block := block_hist stats width hist_bin_count g in
         Block_split_haleq (prologue hist_per_block (bg_totalnum g))
           (jk (bg_block_start_index g)) hist_per_block hist_bin_count
           (bg_totalnum g) (bg_block_start_index g) map_hist)
      map_hist in
  Done (snd st).

(** The geometry of the sixteen iterations, in the order the loops run
    them: the same loops, recording instead of working. *)
Definition block_trace (width height hist_bin_count : Z) : list block_geom :=
  match block_loop width height hist_bin_count
          (fun g trace => Done (trace ++ [g])) [] with
  | Done st => snd st
  | _ => []
  end.

(** The grid rows an iteration samples. *)
Definition block_rows (width : Z) (g : block_geom) : list Z :=
  map (fun i => Z.quot (bg_start_index g) width + Z.of_nat i)
    (seq 0 (Z.to_nat (bg_height g))).

End NewTonemapping.

(** ** Global target estimation: [CLTonemappingImageKernel::prepare_arguments]
    (cl_tonemapping_handler.cpp, lines 74-122) *)

Module Tonemapping.

(** [for (i = n - 1; i >= 0; i--) s = body i s]. *)
Fixpoint for_down {S : Type} (n : nat)
    (body : Z -> S -> outcome S) (s : S) : outcome S :=
  match n with
  | O => Done s
  | Datatypes.S n' => let* s' := body (Z.of_nat n') s in for_down n' body s'
  end.

(** The binary32 constants [0.003f], [0.1f] and [0.5f]. *)
Definition c_0_003f : Q := 12884902 # 4294967296.
Definition c_0_1f : Q := 13421773 # 134217728.
Definition c_0_5f : Q := 1 # 2.

(** The variables the loop of lines 86-102 updates.  The three levels are
    [float] variables that only ever hold bin indices. *)
Record scan : Type := {
  sc_pixel_num : Z;
  sc_cumulative_value : Z;
  sc_y_saturated : Z;
  sc_y_percent_90 : Z;
  sc_y_medium : Z
}.

Definition scan_step (hist_y : list Z)
    (saturated_thresh percent_90_thresh medium_thresh : Z)
    (i : Z) (s : scan) : outcome scan :=
  let* h := rd hist_y i in
  let pixel_num := sc_pixel_num s + h in
  Done {|
    sc_pixel_num := pixel_num;
    sc_cumulative_value := sc_cumulative_value s + i * h;
    sc_y_saturated :=
      if (sc_y_saturated s =? 0) && (saturated_thresh <=? pixel_num)
      then i else sc_y_saturated s;
    sc_y_percent_90 :=
      if (sc_y_percent_90 s =? 0) && (percent_90_thresh <=? pixel_num)
      then i else sc_y_percent_90 s;
    sc_y_medium :=
      if (sc_y_medium s =? 0) && (medium_thresh <=? pixel_num)
      then i else sc_y_medium s
  |}.

Definition Qlt_bool (x y : Q) : bool := negb (Qle_bool y x).

(** The values of the run: the loop result, the intermediate values of
    lines 104-119 and the two outputs [_y_target] and [_y_max]. *)
Record estimate : Type := {
  es_scan : scan;
  es_y_average : Q;
  es_y_saturated : Z;
  es_y_target_pre : Q;
  es_y_max_pre : Q;
  es_y_target : Q;
  es_y_max : Q
}.

(** Lines 104-122, for the loop result [s]. *)
Definition target_of_scan (bit_depth pixel_totalnum : Z) (s : scan)
    : estimate :=
  let hist_bin_count := Z.shiftl 1 bit_depth in
  let y_average : Q :=
    inject_Z (Z.quot (sc_cumulative_value s) pixel_totalnum) in
  let y_saturated :=
    if sc_y_saturated s <? hist_bin_count - 1
    then sc_y_saturated s + 1 else sc_y_saturated s in
  let y_medium := sc_y_medium s in
  let y_target : Q :=
    ((inject_Z hist_bin_count / inject_Z y_saturated)
     * ((3 # 2) * inject_Z y_medium + (1 # 2) * y_average) / 2)%Q in
  let y_target : Q := if Qlt_bool y_target 4 then 4%Q else y_target in
  let y_target : Q :=
    if Qlt_bool (inject_Z y_saturated) y_target || (y_saturated <? 4)
    then (inject_Z y_saturated / 4)%Q else y_target in
  let y_max : Q :=
    (inject_Z hist_bin_count * (2 * inject_Z y_saturated + y_target)
     / inject_Z y_saturated - inject_Z y_saturated - y_target)%Q in
  let scale : Q := (2 ^ (bit_depth - 8))%Q in
  {| es_scan := s;
     es_y_average := y_average;
     es_y_saturated := y_saturated;
     es_y_target_pre := y_target;
     es_y_max_pre := y_max;
     es_y_target := (y_target / scale)%Q;
     es_y_max := (y_max / scale)%Q |}.

(** Lines 74-122.  The integer division of line 104 by a zero
    [pixel_totalnum] is a fault. *)
Definition prepare_arguments (hist_y : list Z)
    (bit_depth pixel_totalnum : Z) : outcome estimate :=
  let hist_bin_count := Z.shiftl 1 bit_depth in
  let saturated_thresh := float_to_int (inject_Z pixel_totalnum * c_0_003f) in
  let percent_90_thresh := float_to_int (inject_Z pixel_totalnum * c_0_1f) in
  let medium_thresh := float_to_int (inject_Z pixel_totalnum * c_0_5f) in
  let* s :=
    for_down (Z.to_nat hist_bin_count)
      (scan_step hist_y saturated_thresh percent_90_thresh medium_thresh)
      {| sc_pixel_num := 0; sc_cumulative_value := 0; sc_y_saturated := 0;
         sc_y_percent_90 := 0; sc_y_medium := 0 |} in
  if pixel_totalnum =? 0 then Fault
  else Done (target_of_scan bit_depth pixel_totalnum s).

(** *** The formulas of the specification *)

(** [sum (level * count)]. *)
Definition weighted_sum (hist_y : list Z) (bin_count : Z) : Z :=
  zsum_upto (fun level => level * aget hist_y level) (Z.to_nat bin_count).





End Tonemapping.

(** ** Predicates of the statements and invariants of the proofs *)

(** Two outcomes of the same kind whose results are related. *)
Definition orel {A B : Type} (R : A -> B -> Prop)
    (o1 : outcome A) (o2 : outcome B) : Prop :=
  match o1, o2 with
  | Done a, Done b => R a b
  | Fault, Fault => True
  | OutOfFuel, OutOfFuel => True
  | _, _ => False
  end.

(** Same length, and the same cells wherever [W] holds. *)
Definition agree {A : Type} (W : Z -> Prop) (a b : list A) : Prop :=
  alen a = alen b /\ forall k, W k -> rd a k = rd b k.

(** The states of two runs of lines 118-150 before level [j]: the same
    [hist_log], and [map_index_log] alike below [j]. *)
Definition compress_rel (j : Z) (s1 s2 : list Z * list Z) : Prop :=
  fst s1 = fst s2 /\ agree (fun k => k < j) (snd s1) (snd s2).

(** The states of two runs of lines 152-160 before bin [j]: the same
    [sort_index], and [sort_y] alike on the ranks already written. *)
Definition fill_rel (hist_log : list Z) (j : Z) (s1 s2 : list Z * Z) : Prop :=
  snd s1 = snd s2 /\ snd s1 = 1 + psum hist_log j /\
  agree (fun k => 1 <= k < snd s1) (fst s1) (fst s2).

(** The anchor slots a call of [Haleq] writes; they depend on the index
    range and the level only. *)
Fixpoint Haleq_slots (fuel : nat) (level index_left index_right : Z) : list Z :=
  match fuel with
  | O => []
  | Datatypes.S fuel' =>
    let index := Z.quot (index_left + index_right) 2 in
    index ::
      (if 5 <? level then []
       else Haleq_slots fuel' (level + 1) index_left index ++
            Haleq_slots fuel' (level + 1) (index + 1) index_right)
  end.

(** Linear arithmetic with the truncating division of C. *)
Ltac lia_quot := Z.to_euclidean_division_equations; lia.

(** Two anchor tables before step [i] of the repair loop: alike below
    [i], at slot 255 and at the odd slots. *)
Definition repair_rel (i : Z) (m1 m2 : list Z) : Prop :=
  agree (fun k => 0 <= k < i \/ k = 255 \/ (1 <= k <= 253 /\ Z.rem k 2 <> 0))
    m1 m2.

(** The anchor table before step [i] of the repair loop; [bounded] says
    that the anchors written by [Haleq] are at most [hist_bin_count]. *)
Definition repair_inv (hist_bin_count : Z) (bounded : Prop) (i : Z)
    (m : list Z) : Prop :=
  alen m = 256 /\ aget m 0 = 0 /\ aget m 255 = hist_bin_count /\
  (forall k, 0 <= k -> k + 1 < i -> aget m k <= aget m (k + 1)) /\
  (bounded ->
   forall k, 0 <= k < i \/ k = 255 \/ (1 <= k <= 253 /\ Z.rem k 2 <> 0) ->
             aget m k <= hist_bin_count).

(** [k] lies in one of the first [j] anchor intervals. *)
Definition in_interval (m : list Z) (j k : Z) : Prop :=
  exists i, 0 <= i < j /\ aget m i <= k < aget m (i + 1).







(** ** Inputs of the worked instances *)

(** A frame of 1000 pixels, all at level 1. *)
Definition hist_dark : list Z := [0; 1000] ++ replicate 254 0.


(** A block of ten pixels over eight levels, and what the prologue of
    [Block_split_haleq] yields for it in binary32 arithmetic: [y_avg] is
    3.1, [thres] is 127238456 and the compressed indices of levels 0 to 6
    are 0, 4, 5, 6, 6, 6 and 7. *)
Definition hist_example : list Z := [3; 0; 2; 1; 0; 0; 4; 0].

Definition ls_example : log_stage := {|
  ls_thres := 127238456;
  ls_index0 := fun i => nth (Z.to_nat i) [0; 4; 5; 6; 6; 6; 7] 0;
  ls_index1 := fun r => r
|}.

Definition jk_example (c : Z) : junk := {|
  junk_sort_y := fun _ => c;
  junk_map_index_leq := fun n => c + Z.of_nat n;
  junk_map_index_log := fun _ => - c;
  junk_map_leq_index := fun n => c * Z.of_nat n
|}.

(** * Properties *)

(** ** Array accesses never run out of fuel *)

Lemma rd_fuel {A : Type} (a : list A) (i : Z) : rd a i <> OutOfFuel.
Proof. unfold rd. destruct (i <? 0); [done|]. by destruct (a !! _). Qed.

Lemma wr_fuel {A : Type} (a : list A) (i : Z) (v : A) : wr a i v <> OutOfFuel.
Proof. unfold wr. by destruct (_ && _). Qed.

(** ** Termination of [Haleq] *)

Lemma Haleq_depth_succ (level : Z) :
  level <= 5 -> Haleq_depth level = Datatypes.S (Haleq_depth (level + 1)).
Proof. unfold Haleq_depth. lia. Qed.

Lemma Haleq_depth_pos (level : Z) : (1 <= Haleq_depth level)%nat.
Proof. unfold Haleq_depth. lia. Qed.

Lemma Haleq_fuel_enough (f1 f2 : nat) (y hist m : list Z)
    (left right level il ir : Z) :
  (Haleq_depth level <= f1)%nat ->
  (Haleq_depth level <= f2)%nat ->
  Haleq_fuel f1 y hist m left right level il ir =
    Haleq_fuel f2 y hist m left right level il ir /\
  Haleq_fuel f1 y hist m left right level il ir <> OutOfFuel.
Proof.
  revert f2 m left right level il ir.
  induction f1 as [|f1 IH]; intros f2 m left right level il ir H1 H2.
  { pose proof (Haleq_depth_pos level). lia. }
  destruct f2 as [|f2].
  { pose proof (Haleq_depth_pos level). lia. }
  cbn [Haleq_fuel].
  destruct (if 0 <? left then rd hist (left - 1) else Done 0)
    as [num_left| |] eqn:Hnl; cbn [obind]; [|done|].
  2:{ destruct (0 <? left); [by apply rd_fuel in Hnl | done]. }
  destruct (rd hist right) as [hr| |] eqn:Hhr; cbn [obind];
    [|done|by apply rd_fuel in Hhr].
  destruct (rd y _) as [yr| |] eqn:Hyr; cbn [obind];
    [|done|by apply rd_fuel in Hyr].
  destruct (wr m _ _) as [m1| |] eqn:Hwr; cbn [obind];
    [|done|by apply wr_fuel in Hwr].
  destruct (5 <? level) eqn:Hlv; [done|].
  apply Z.ltb_ge in Hlv.
  rewrite (Haleq_depth_succ level Hlv) in H1, H2.
  assert (Hf1 : (Haleq_depth (level + 1) <= f1)%nat) by lia.
  assert (Hf2 : (Haleq_depth (level + 1) <= f2)%nat) by lia.
  match goal with
  | |- context [Haleq_fuel f1 y hist m1 ?a ?b ?c ?d ?e] =>
    destruct (IH f2 m1 a b c d e Hf1 Hf2) as [Heq Hne]
  end.
  rewrite <- Heq.
  match goal with
  | |- context [obind ?o _] => destruct o as [m2| |]; cbn [obind]
  end; [|done..].
  apply IH; assumption.
Qed.

(** ** Reading and writing arrays *)

Lemma rd_Done_inv {A : Type} (a : list A) (i : Z) (v : A) :
  rd a i = Done v -> 0 <= i < alen a /\ a !! Z.to_nat i = Some v.
Proof.
  unfold rd, alen. destruct (i <? 0) eqn:Hi; [done|].
  apply Z.ltb_ge in Hi.
  destruct (a !! Z.to_nat i) as [w|] eqn:Hl; [|done].
  intros [= ->]. split; [|done].
  apply lookup_lt_Some in Hl. lia.
Qed.

Lemma rd_inside {A : Type} (a : list A) (i : Z) :
  0 <= i < alen a -> exists v, rd a i = Done v.
Proof.
  unfold rd, alen. intros Hi.
  destruct (i <? 0) eqn:Hn; [apply Z.ltb_lt in Hn; lia|].
  destruct (lookup_lt_is_Some_2 a (Z.to_nat i)) as [v Hv]; [lia|].
  exists v. by rewrite Hv.
Qed.

Lemma rd_outside {A : Type} (a : list A) (i : Z) :
  ~ (0 <= i < alen a) -> rd a i = Fault.
Proof.
  unfold rd, alen. intros Hi.
  destruct (i <? 0) eqn:Hn; [done|]. apply Z.ltb_ge in Hn.
  rewrite lookup_ge_None_2; [done|lia].
Qed.

Lemma rd_aget (a : list Z) (i : Z) :
  0 <= i < alen a -> rd a i = Done (aget a i).
Proof.
  intros Hi. destruct (rd_inside a i Hi) as [v Hv].
  unfold aget. by rewrite Hv.
Qed.

Lemma rd_Done_aget (a : list Z) (i v : Z) : rd a i = Done v -> aget a i = v.
Proof. unfold aget. by intros ->. Qed.

Lemma wr_inside {A : Type} (a : list A) (i : Z) (v : A) :
  0 <= i < alen a -> wr a i v = Done (<[Z.to_nat i := v]> a).
Proof.
  unfold wr, alen. intros Hi.
  destruct (0 <=? i) eqn:H0; [|apply Z.leb_gt in H0; lia].
  destruct (i <? Z.of_nat (length a)) eqn:H1; [done|].
  apply Z.ltb_ge in H1. lia.
Qed.

Lemma wr_Done_inv {A : Type} (a a' : list A) (i : Z) (v : A) :
  wr a i v = Done a' -> 0 <= i < alen a /\ a' = <[Z.to_nat i := v]> a.
Proof.
  unfold wr, alen.
  destruct (0 <=? i) eqn:H0; [|done].
  destruct (i <? Z.of_nat (length a)) eqn:H1; [|done].
  apply Z.leb_le in H0. apply Z.ltb_lt in H1.
  cbn. intros [= <-]. split; [lia|done].
Qed.

Lemma wr_outside {A : Type} (a : list A) (i : Z) (v : A) :
  ~ (0 <= i < alen a) -> wr a i v = Fault.
Proof.
  unfold wr, alen. intros Hi.
  destruct (0 <=? i) eqn:H0; [|done].
  destruct (i <? Z.of_nat (length a)) eqn:H1; [|done].
  apply Z.leb_le in H0. apply Z.ltb_lt in H1. lia.
Qed.

Lemma alen_wr {A : Type} (a a' : list A) (i : Z) (v : A) :
  wr a i v = Done a' -> alen a' = alen a.
Proof.
  intros H. apply wr_Done_inv in H as [_ ->].
  unfold alen. by rewrite length_insert.
Qed.

Lemma rd_wr {A : Type} (a a' : list A) (i k : Z) (v : A) :
  wr a i v = Done a' ->
  rd a' k = if k =? i then Done v else rd a k.
Proof.
  intros H. apply wr_Done_inv in H as [Hi ->].
  destruct (k =? i) eqn:Hk.
  - apply Z.eqb_eq in Hk. subst k. unfold rd.
    destruct (i <? 0) eqn:Hn; [apply Z.ltb_lt in Hn; lia|].
    rewrite list_lookup_insert_eq; [done|]. unfold alen in Hi. lia.
  - apply Z.eqb_neq in Hk. unfold rd.
    destruct (k <? 0) eqn:Hn; [done|]. apply Z.ltb_ge in Hn.
    rewrite list_lookup_insert_ne; [done|lia].
Qed.

Lemma aget_wr (a a' : list Z) (i k v : Z) :
  wr a i v = Done a' ->
  aget a' k = if k =? i then v else aget a k.
Proof.
  intros H. unfold aget. rewrite (rd_wr _ _ _ k _ H).
  by destruct (k =? i).
Qed.

Lemma alen_alloc {A : Type} (jk : nat -> A) (n : Z) :
  alen (alloc jk n) = Z.max 0 n.
Proof. unfold alen, alloc. rewrite length_map, length_seq. lia. Qed.

Lemma alen_replicate {A : Type} (n : nat) (x : A) :
  alen (replicate n x) = Z.of_nat n.
Proof. unfold alen. by rewrite length_replicate. Qed.


(** Two arrays of one length with the same cells are the same array. *)
Lemma array_ext {A : Type} (a b : list A) :
  alen a = alen b ->
  (forall k, 0 <= k < alen a -> rd a k = rd b k) ->
  a = b.
Proof.
  unfold alen. intros Hlen Hrd. apply list_eq. intros n.
  destruct (decide (n < length a)%nat) as [Hn|Hn].
  - specialize (Hrd (Z.of_nat n)). unfold rd in Hrd.
    destruct (Z.of_nat n <? 0) eqn:Hneg; [apply Z.ltb_lt in Hneg; lia|].
    rewrite Nat2Z.id in Hrd.
    destruct (lookup_lt_is_Some_2 a n Hn) as [x Hx].
    destruct (lookup_lt_is_Some_2 b n ltac:(lia)) as [y Hy].
    rewrite Hx, Hy in Hrd. rewrite Hx, Hy.
    assert (Done x = Done y) as [= ->] by (apply Hrd; lia). done.
  - rewrite !lookup_ge_None_2; [done|lia..].
Qed.

(** ** Reasoning about loops *)

Lemma orel_bind {A B A' B' : Type} (R : A -> B -> Prop) (R' : A' -> B' -> Prop)
    (o1 : outcome A) (o2 : outcome B)
    (k1 : A -> outcome A') (k2 : B -> outcome B') :
  orel R o1 o2 ->
  (forall a b, R a b -> orel R' (k1 a) (k2 b)) ->
  orel R' (obind o1 k1) (obind o2 k2).
Proof. destruct o1, o2; cbn; try done. intros HR Hk. by apply Hk. Qed.

Lemma orel_eq {A : Type} (o1 o2 : outcome A) : orel eq o1 o2 <-> o1 = o2.
Proof.
  destruct o1, o2; cbn; split; try done; try congruence.
Qed.

Lemma orel_refl {A : Type} (R : A -> A -> Prop) (o : outcome A) :
  (forall a, R a a) -> orel R o o.
Proof. destruct o; cbn; auto. Qed.

Lemma orel_mono {A B : Type} (R R' : A -> B -> Prop) o1 o2 :
  (forall a b, R a b -> R' a b) -> orel R o1 o2 -> orel R' o1 o2.
Proof. destruct o1, o2; cbn; auto. Qed.

(** An invariant kept by every iteration that completes holds at the end. *)
Lemma for_up_post {S : Type} (I : Z -> S -> Prop) (n : nat) (i : Z)
    (body : Z -> S -> outcome S) (s s' : S) :
  I i s ->
  (forall j t t', i <= j < i + Z.of_nat n -> I j t ->
     body j t = Done t' -> I (j + 1) t') ->
  for_up n i body s = Done s' ->
  I (i + Z.of_nat n) s'.
Proof.
  revert i s. induction n as [|n IH]; intros i s Hi Hstep; cbn.
  - intros [= <-]. by rewrite Z.add_0_r.
  - destruct (body i s) as [t| |] eqn:Hb; cbn; [|done..].
    intros Hrest.
    replace (i + Z.of_nat (Datatypes.S n)) with ((i + 1) + Z.of_nat n) by lia.
    apply (IH (i + 1) t); [| |done].
    + apply (Hstep i s t); [lia|done..].
    + intros j u u' Hj. apply Hstep. lia.
Qed.

(** An invariant under which every iteration completes: the loop
    completes. *)
Lemma for_up_total {S : Type} (I : Z -> S -> Prop) (n : nat) (i : Z)
    (body : Z -> S -> outcome S) (s : S) :
  I i s ->
  (forall j t, i <= j < i + Z.of_nat n -> I j t ->
     exists t', body j t = Done t' /\ I (j + 1) t') ->
  exists s', for_up n i body s = Done s' /\ I (i + Z.of_nat n) s'.
Proof.
  revert i s. induction n as [|n IH]; intros i s Hi Hstep; cbn.
  - exists s. by rewrite Z.add_0_r.
  - destruct (Hstep i s) as (t & Hb & Ht); [lia|done|].
    rewrite Hb. cbn.
    replace (i + Z.of_nat (Datatypes.S n)) with ((i + 1) + Z.of_nat n) by lia.
    apply IH; [done|]. intros j u Hj. apply Hstep. lia.
Qed.

(** Two loops whose iterations keep a relation run in lock step. *)
Lemma for_up_rel {S T : Type} (R : Z -> S -> T -> Prop) (n : nat) (i : Z)
    (body1 : Z -> S -> outcome S) (body2 : Z -> T -> outcome T)
    (s : S) (t : T) :
  R i s t ->
  (forall j u v, i <= j < i + Z.of_nat n -> R j u v ->
     orel (R (j + 1)) (body1 j u) (body2 j v)) ->
  orel (R (i + Z.of_nat n)) (for_up n i body1 s) (for_up n i body2 t).
Proof.
  revert i s t. induction n as [|n IH]; intros i s t Hi Hstep; cbn.
  - by rewrite Z.add_0_r.
  - replace (i + Z.of_nat (Datatypes.S n)) with ((i + 1) + Z.of_nat n) by lia.
    apply orel_bind with (R := R (i + 1)).
    + apply Hstep; [lia|done].
    + intros a b Hab. apply IH; [done|].
      intros j u v Hj. apply Hstep. lia.
Qed.

Lemma for_range_post {S : Type} (I : Z -> S -> Prop) (lo hi : Z)
    (body : Z -> S -> outcome S) (s s' : S) :
  I lo s ->
  (forall j t t', lo <= j < hi -> I j t -> body j t = Done t' -> I (j + 1) t') ->
  for_range lo hi body s = Done s' ->
  I (Z.max lo hi) s'.
Proof.
  unfold for_range. intros Hlo Hstep Hrun.
  replace (Z.max lo hi) with (lo + Z.of_nat (Z.to_nat (hi - lo))) by lia.
  eapply for_up_post; [exact Hlo| |exact Hrun].
  intros j t t' Hj. apply Hstep. lia.
Qed.

Lemma for_range_total {S : Type} (I : Z -> S -> Prop) (lo hi : Z)
    (body : Z -> S -> outcome S) (s : S) :
  I lo s ->
  (forall j t, lo <= j < hi -> I j t ->
     exists t', body j t = Done t' /\ I (j + 1) t') ->
  exists s', for_range lo hi body s = Done s' /\ I (Z.max lo hi) s'.
Proof.
  unfold for_range. intros Hlo Hstep.
  replace (Z.max lo hi) with (lo + Z.of_nat (Z.to_nat (hi - lo))) by lia.
  apply for_up_total; [exact Hlo|].
  intros j t Hj. apply Hstep. lia.
Qed.

Lemma for_range_rel {S T : Type} (R : Z -> S -> T -> Prop) (lo hi : Z)
    (body1 : Z -> S -> outcome S) (body2 : Z -> T -> outcome T)
    (s : S) (t : T) :
  R lo s t ->
  (forall j u v, lo <= j < hi -> R j u v ->
     orel (R (j + 1)) (body1 j u) (body2 j v)) ->
  orel (R (Z.max lo hi)) (for_range lo hi body1 s) (for_range lo hi body2 t).
Proof.
  unfold for_range. intros Hlo Hstep.
  replace (Z.max lo hi) with (lo + Z.of_nat (Z.to_nat (hi - lo))) by lia.
  apply for_up_rel; [exact Hlo|].
  intros j u v Hj. apply Hstep. lia.
Qed.

(** A loop that completes is followed step by step by a second loop. *)
Lemma for_up_sim {S T : Type} (R : Z -> S -> T -> Prop) (n : nat) (i : Z)
    (body1 : Z -> S -> outcome S) (body2 : Z -> T -> outcome T)
    (s s' : S) (t : T) :
  R i s t ->
  (forall j u v u', i <= j < i + Z.of_nat n -> R j u v ->
     body1 j u = Done u' ->
     exists v', body2 j v = Done v' /\ R (j + 1) u' v') ->
  for_up n i body1 s = Done s' ->
  exists t', for_up n i body2 t = Done t' /\ R (i + Z.of_nat n) s' t'.
Proof.
  revert i s t. induction n as [|n IH]; intros i s t Hi Hstep; cbn.
  - intros [= <-]. exists t. by rewrite Z.add_0_r.
  - destruct (body1 i s) as [u| |] eqn:Hb; cbn; [|done..].
    destruct (Hstep i s t u) as (v & Hv & Huv); [lia|done..|].
    rewrite Hv. cbn. intros Hrest.
    replace (i + Z.of_nat (Datatypes.S n)) with ((i + 1) + Z.of_nat n) by lia.
    apply (IH (i + 1) u v); [done| |done].
    intros j a b a' Hj. apply Hstep. lia.
Qed.

Lemma for_range_sim {S T : Type} (R : Z -> S -> T -> Prop) (lo hi : Z)
    (body1 : Z -> S -> outcome S) (body2 : Z -> T -> outcome T)
    (s s' : S) (t : T) :
  R lo s t ->
  (forall j u v u', lo <= j < hi -> R j u v ->
     body1 j u = Done u' ->
     exists v', body2 j v = Done v' /\ R (j + 1) u' v') ->
  for_range lo hi body1 s = Done s' ->
  exists t', for_range lo hi body2 t = Done t' /\ R (Z.max lo hi) s' t'.
Proof.
  unfold for_range. intros Hlo Hstep Hrun.
  replace (Z.max lo hi) with (lo + Z.of_nat (Z.to_nat (hi - lo))) by lia.
  eapply for_up_sim; [exact Hlo| |exact Hrun].
  intros j u v u' Hj. apply Hstep. lia.
Qed.

(** ** Independence of the initial contents of uninitialised arrays *)

Lemma agree_weaken {A : Type} (W W' : Z -> Prop) (a b : list A) :
  (forall k, W' k -> W k) -> agree W a b -> agree W' a b.
Proof. intros HW [Hlen Hrd]. split; [done|]. intros k Hk. by apply Hrd, HW. Qed.

(** Outside both arrays every read faults. *)
Lemma agree_outside {A : Type} (W W' : Z -> Prop) (a b : list A) :
  (forall k, W' k -> W k \/ ~ (0 <= k < alen a)) ->
  agree W a b -> agree W' a b.
Proof.
  intros HW [Hlen Hrd]. split; [done|]. intros k Hk.
  destruct (HW k Hk) as [Hin|Hout]; [by apply Hrd|].
  rewrite !rd_outside; [done|lia..].
Qed.

Lemma agree_wr {A : Type} (W : Z -> Prop) (a b : list A) (i : Z) (v : A) :
  agree W a b ->
  orel (agree (fun k => W k \/ k = i)) (wr a i v) (wr b i v).
Proof.
  intros [Hlen Hrd].
  destruct (decide (0 <= i < alen a)) as [Hi|Hi].
  - rewrite (wr_inside a i v Hi).
    rewrite (wr_inside b i v) by (rewrite <- Hlen; exact Hi).
    cbn. split.
    + unfold alen in *. by rewrite !length_insert.
    + intros k Hk.
      rewrite (rd_wr a _ i k v (wr_inside a i v Hi)).
      rewrite (rd_wr b _ i k v (wr_inside b i v ltac:(rewrite <- Hlen; exact Hi))).
      destruct (k =? i) eqn:Hki; [done|].
      apply Z.eqb_neq in Hki. destruct Hk as [Hk|Hk]; [by apply Hrd|done].
  - rewrite (wr_outside a i v Hi).
    rewrite (wr_outside b i v) by (rewrite <- Hlen; exact Hi).
    done.
Qed.

Lemma agree_eq {A : Type} (W : Z -> Prop) (a b : list A) :
  agree W a b -> (forall k, 0 <= k < alen a -> W k) -> a = b.
Proof.
  intros [Hlen Hrd] HW. apply array_ext; [done|].
  intros k Hk. by apply Hrd, HW.
Qed.

Lemma agree_alloc {A : Type} (j1 j2 : nat -> A) (n : Z) :
  agree (fun _ => False) (alloc j1 n) (alloc j2 n).
Proof. split; [by rewrite !alen_alloc|done]. Qed.

Lemma log_bin_rel (hist : list Z) (i index : Z) (s1 s2 : list Z * list Z) :
  compress_rel i s1 s2 ->
  orel (compress_rel (i + 1)) (log_bin hist i index s1) (log_bin hist i index s2).
Proof.
  intros [Hfst Hag]. unfold log_bin. rewrite <- Hfst.
  destruct (rd hist i) as [h| |]; cbn; [|done..].
  destruct (rd (fst s1) index) as [old| |]; cbn; [|done..].
  destruct (wr (fst s1) index (old + h)) as [hl| |]; cbn; [|done..].
  apply orel_bind with (R := agree (fun k => k < i \/ k = i)).
  - by apply agree_wr.
  - intros a b Hab. cbn. split; [done|].
    eapply agree_weaken; [|exact Hab]. cbn. lia.
Qed.

Lemma compress_rel_mono (j j' : Z) (s1 s2 : list Z * list Z) :
  j' <= j -> compress_rel j s1 s2 -> compress_rel j' s1 s2.
Proof.
  intros Hj [Hfst Hag]. split; [done|].
  eapply agree_weaken; [|exact Hag]. cbn. lia.
Qed.

(** Lines 118-150: afterwards [map_index_log] no longer depends on what
    it held at allocation. *)
Lemma compress_indep (ls : log_stage) (hist : list Z)
    (hist_bin_count y_max : Z) (s1 s2 : list Z * list Z) :
  0 <= y_max ->
  compress_rel 0 s1 s2 ->
  orel (compress_rel (Z.max y_max hist_bin_count))
    (compress ls hist hist_bin_count y_max s1)
    (compress ls hist hist_bin_count y_max s2).
Proof.
  intros Hy H0. unfold compress.
  apply orel_bind with (R := compress_rel y_max).
  - destruct (y_max <? ls_thres ls).
    + eapply orel_mono;
        [|apply for_range_rel with (R := compress_rel); [exact H0|]].
      * intros a b. apply compress_rel_mono. lia.
      * intros j u v _. apply log_bin_rel.
    + set (y_max0 := if ls_thres ls <? y_max then ls_thres ls else y_max).
      assert (Hy0 : y_max0 <= y_max).
      { subst y_max0. destruct (ls_thres ls <? y_max) eqn:E; [|lia].
        apply Z.ltb_lt in E. lia. }
      apply orel_bind with (R := compress_rel y_max0).
      * eapply orel_mono;
          [|apply for_range_rel with (R := compress_rel); [exact H0|]].
        -- intros a b. apply compress_rel_mono. lia.
        -- intros j u v _. apply log_bin_rel.
      * intros a b Hab.
        eapply orel_mono;
          [|apply for_range_rel with (R := compress_rel); [exact Hab|]].
        -- intros a' b'. apply compress_rel_mono. lia.
        -- intros j u v _. apply log_bin_rel.
  - intros a b Hab.
    apply for_range_rel with (R := compress_rel); [done|].
    intros j u v Hj [Hfst Hag].
    assert (Hlast : rd (snd u) (y_max - 1) = rd (snd v) (y_max - 1)).
    { apply Hag. lia. }
    rewrite <- Hlast.
    destruct (rd (snd u) (y_max - 1)) as [last| |]; cbn; [|done..].
    apply log_bin_rel. by split.
Qed.

Lemma zsum_upto_succ (f : Z -> Z) (j : Z) :
  0 <= j ->
  zsum_upto f (Z.to_nat (j + 1)) = zsum_upto f (Z.to_nat j) + f j.
Proof.
  intros Hj. replace (Z.to_nat (j + 1)) with (Datatypes.S (Z.to_nat j)) by lia.
  cbn. by rewrite Z2Nat.id.
Qed.

Lemma csum_succ (a : list Z) (j : Z) :
  0 <= j -> csum a (j + 1) = csum a j + aget a j.
Proof. apply zsum_upto_succ. Qed.

Lemma psum_succ (a : list Z) (j : Z) :
  0 <= j -> psum a (j + 1) = psum a j + Z.max 0 (aget a j).
Proof. apply (zsum_upto_succ (fun k => Z.max 0 (aget a k))). Qed.

Lemma zsum_upto_le (f g : Z -> Z) (n : nat) :
  (forall k, f k <= g k) -> zsum_upto f n <= zsum_upto g n.
Proof.
  intros Hfg. induction n as [|n IH]; cbn; [lia|].
  specialize (Hfg (Z.of_nat n)). lia.
Qed.

Lemma zsum_upto_mono (f : Z -> Z) (n n' : nat) :
  (forall k, 0 <= f k) -> (n <= n')%nat -> zsum_upto f n <= zsum_upto f n'.
Proof.
  intros Hf Hn. induction Hn as [|n' Hn IH]; [lia|].
  cbn. specialize (Hf (Z.of_nat n')). lia.
Qed.

Lemma psum_nonneg (a : list Z) (j : Z) : 0 <= psum a j.
Proof.
  unfold psum. induction (Z.to_nat j) as [|n IH]; cbn; lia.
Qed.

Lemma csum_le_psum (a : list Z) (j j' : Z) :
  j <= j' -> csum a j <= psum a j'.
Proof.
  intros Hj. unfold csum, psum.
  etrans; [apply (zsum_upto_le _ (fun k => Z.max 0 (aget a k))); lia|].
  apply zsum_upto_mono; lia.
Qed.

(** Lines 152-161: the ranks 0 to [psum hist_log hist_bin_count] of
    [sort_y] are written, whatever the array held before. *)
Lemma fill_sort_y_indep (hist_log : list Z) (hist_bin_count : Z)
    (sy1 sy2 : list Z) :
  agree (fun _ => False) sy1 sy2 ->
  orel (agree (fun k => 0 <= k <= psum hist_log (Z.max 0 hist_bin_count)))
    (fill_sort_y hist_log hist_bin_count sy1)
    (fill_sort_y hist_log hist_bin_count sy2).
Proof.
  intros Hag. unfold fill_sort_y.
  apply orel_bind with (R := fill_rel hist_log (Z.max 0 hist_bin_count)).
  - apply for_range_rel with (R := fill_rel hist_log).
    { split; [done|]. split; [done|].
      eapply agree_weaken; [|exact Hag]. cbn. lia. }
    intros j u v Hj (Hsnd & Hsum & Hcells).
    destruct (rd hist_log j) as [count| |] eqn:Hcount; cbn; [|done..].
    apply rd_Done_aget in Hcount.
    eapply orel_mono;
      [|apply for_range_rel with
          (R := fun l s1 s2 =>
                  snd s1 = snd s2 /\ snd s1 = 1 + psum hist_log j + l /\
                  agree (fun k => 1 <= k < snd s1) (fst s1) (fst s2))].
    + intros a b (Ha & Hb & Hc). split; [done|]. split; [|done].
      rewrite psum_succ by lia. lia.
    + split; [done|]. split; [lia|done].
    + intros l s1 s2 Hl (Ha & Hb & Hc). rewrite <- Ha.
      apply orel_bind
        with (R := agree (fun k => 1 <= k < snd s1 \/ k = snd s1)).
      * by apply agree_wr.
      * intros a b Hab. cbn. split; [done|]. split; [lia|].
        eapply agree_weaken; [|exact Hab].
        pose proof (psum_nonneg hist_log j). cbn. lia.
  - intros a b (Ha & Hb & Hc).
    eapply orel_mono; [|apply agree_wr; exact Hc].
    intros a' b'. apply agree_weaken. cbn. lia.
Qed.

(** Lines 163-166: the cumulative histogram. *)
Lemma accumulate_post (hist_log cum : list Z) (n : Z) :
  accumulate hist_log n = Done cum ->
  alen cum = alen hist_log /\
  (forall k, 0 <= k < Z.max 1 n -> aget cum k = csum hist_log (k + 1)) /\
  (forall k, Z.max 1 n <= k -> aget cum k = aget hist_log k).
Proof.
  unfold accumulate. intros Hrun.
  apply (for_range_post
           (fun i a => alen a = alen hist_log /\
              (forall k, 0 <= k < i -> aget a k = csum hist_log (k + 1)) /\
              (forall k, i <= k -> aget a k = aget hist_log k)))
    in Hrun; [exact Hrun| |].
  - split; [done|]. split; [|done].
    intros k Hk. assert (k = 0) as -> by lia.
    rewrite csum_succ by lia. change (csum hist_log 0) with 0. lia.
  - intros j a a' Hj (Hlen & Hlow & Hhigh) Hbody.
    destruct (rd a (j - 1)) as [prev| |] eqn:Hprev; cbn in Hbody; [|done..].
    destruct (rd a j) as [cur| |] eqn:Hcur; cbn in Hbody; [|done..].
    apply rd_Done_aget in Hprev, Hcur.
    split; [by rewrite (alen_wr _ _ _ _ Hbody)|].
    split; intros k Hk; rewrite (aget_wr _ _ _ k _ Hbody).
    + destruct (k =? j) eqn:Hkj.
      * apply Z.eqb_eq in Hkj. subst k.
        rewrite csum_succ by lia.
        rewrite <- Hcur, <- Hprev, (Hhigh j) by lia.
        rewrite (Hlow (j - 1)) by lia.
        replace (j - 1 + 1) with j by lia. lia.
      * apply Z.eqb_neq in Hkj. apply Hlow. lia.
    + destruct (k =? j) eqn:Hkj; [apply Z.eqb_eq in Hkj; lia|].
      apply Hhigh. lia.
Qed.

Lemma accumulate_bound (hist_log cum : list Z) (n : Z) :
  alen hist_log = Z.max 0 n ->
  accumulate hist_log n = Done cum ->
  alen cum = Z.max 0 n /\
  forall k, 0 <= k < alen cum -> aget cum k = csum hist_log (k + 1).
Proof.
  intros Hlen Hrun.
  destruct (accumulate_post _ _ _ Hrun) as (Hl & Hlow & _).
  split; [lia|]. intros k Hk. apply Hlow. lia.
Qed.

Lemma quot2_between (a b : Z) :
  Z.min a b <= a + Z.quot (b - a) 2 <= Z.max a b.
Proof. lia_quot. Qed.

(** [Haleq] on two rank arrays that agree up to rank [top], with a
    cumulative histogram bounded by [top]: the two runs end alike, and the
    anchors agree on every slot written and wherever they agreed before. *)
Lemma Haleq_fuel_indep (top : Z) (fuel : nat) (y1 y2 hist m1 m2 : list Z)
    (left right level il ir : Z) :
  0 <= top ->
  agree (fun k => 0 <= k <= top) y1 y2 ->
  (forall k, 0 <= k < alen hist -> aget hist k <= top) ->
  alen m1 = alen m2 ->
  orel (fun r1 r2 =>
          alen r1 = alen r2 /\
          forall k, In k (Haleq_slots fuel level il ir) \/ rd m1 k = rd m2 k ->
                    rd r1 k = rd r2 k)
    (Haleq_fuel fuel y1 hist m1 left right level il ir)
    (Haleq_fuel fuel y2 hist m2 left right level il ir).
Proof.
  intros Htop Hy Hhist. revert m1 m2 left right level il ir.
  induction fuel as [|fuel IH]; intros m1 m2 left right level il ir Hlen;
    [done|].
  cbn [Haleq_fuel Haleq_slots].
  set (index := Z.quot (il + ir) 2).
  destruct (if 0 <? left then rd hist (left - 1) else Done 0)
    as [num_left| |] eqn:Hnl; cbn [obind]; [|done..].
  assert (Hnl_top : num_left <= top).
  { destruct (0 <? left); [|injection Hnl; lia].
    pose proof (rd_Done_inv _ _ _ Hnl) as [Hin _].
    apply rd_Done_aget in Hnl. rewrite <- Hnl. by apply Hhist. }
  destruct (rd hist right) as [hr| |] eqn:Hhr; cbn [obind]; [|done..].
  assert (Hhr_top : hr <= top).
  { pose proof (rd_Done_inv _ _ _ Hhr) as [Hin _].
    apply rd_Done_aget in Hhr. rewrite <- Hhr. by apply Hhist. }
  set (rank := num_left + Z.quot (hr - num_left) 2).
  assert (Hrank : rd y1 rank = rd y2 rank).
  { destruct (decide (0 <= rank)) as [Hr|Hr].
    - apply Hy. pose proof (quot2_between num_left hr). lia.
    - destruct Hy as [Hylen _].
      rewrite !rd_outside; [done|lia..]. }
  rewrite <- Hrank.
  destruct (rd y1 rank) as [yr| |]; cbn [obind]; [|done..].
  match goal with
  | |- context [wr m1 index ?c] => set (cut := c)
  end.
  pose proof (agree_wr (fun k => rd m1 k = rd m2 k) m1 m2 index cut
                (conj Hlen (fun k H => H))) as Hwr.
  destruct (wr m1 index cut) as [m1'| |], (wr m2 index cut) as [m2'| |];
    cbn in Hwr; try done; cbn [obind].
  destruct Hwr as [Hlen' Hcells'].
  destruct (5 <? level).
  { cbn. split; [done|]. intros k [[Hk|[]]|Hk]; apply Hcells'; auto. }
  apply orel_bind
    with (R := fun r1 r2 => alen r1 = alen r2 /\
                 forall k, In k (Haleq_slots fuel (level + 1) il index) \/
                           rd m1' k = rd m2' k -> rd r1 k = rd r2 k).
  { by apply IH. }
  intros r1 r2 [Hlen1 Hcells1].
  eapply orel_mono; [|apply IH; exact Hlen1].
  cbn. intros s1 s2 [Hlen2 Hcells2]. split; [done|].
  intros k Hk. apply Hcells2.
  rewrite in_app_iff in Hk.
  destruct Hk as [[Hk|[Hk|Hk]]|Hk]; auto.
  - right. apply Hcells1. right. apply Hcells'. auto.
  - right. apply Hcells1. right. apply Hcells'. auto.
Qed.

(** The top call fills every odd anchor slot from 1 to 253. *)
Lemma Haleq_slots_odd (k : Z) :
  1 <= k <= 253 -> Z.rem k 2 <> 0 -> In k (Haleq_slots 7 0 0 255).
Proof.
  intros Hk Hodd.
  assert (Hall : forallb
            (fun n => existsb (Z.eqb (2 * Z.of_nat n + 1)) (Haleq_slots 7 0 0 255))
            (seq 0 127) = true) by (vm_compute; reflexivity).
  rewrite forallb_forall in Hall.
  specialize (Hall (Z.to_nat (Z.quot k 2))).
  rewrite existsb_exists in Hall.
  destruct Hall as (x & Hin & Hx).
  - apply in_seq. lia_quot.
  - apply Z.eqb_eq in Hx. replace k with x; [done|]. lia_quot.
Qed.

(** Lines 172-180 overwrite slots 0 and 255 and every even slot, and use
    nothing else but the odd slots. *)
Lemma repair_step_rel (i : Z) (m1 m2 : list Z) :
  1 <= i < 255 ->
  repair_rel i m1 m2 ->
  orel (repair_rel (i + 1)) (repair_step i m1) (repair_step i m2).
Proof.
  intros Hi Hag. unfold repair_step.
  apply orel_bind
    with (R := agree (fun k => (0 <= k < i \/ k = 255 \/
                                (1 <= k <= 253 /\ Z.rem k 2 <> 0)) \/ k = i)).
  - destruct (Z.rem i 2 =? 0) eqn:Hrem.
    + apply Z.eqb_eq in Hrem.
      destruct Hag as [Hlen Hcells].
      rewrite <- (Hcells (i - 1)) by lia.
      rewrite <- (Hcells (i + 1)) by (right; lia_quot).
      destruct (rd m1 (i - 1)) as [a| |]; cbn; [|done..].
      destruct (rd m1 (i + 1)) as [b| |]; cbn; [|done..].
      by apply agree_wr.
    + cbn. eapply agree_weaken; [|exact Hag].
      apply Z.eqb_neq in Hrem. cbn. intros k Hk.
      destruct Hk as [Hk| ->]; [exact Hk|]. right. right. lia_quot.
  - intros a b Hab.
    destruct Hab as [Hlen Hcells].
    rewrite <- (Hcells i) by lia.
    rewrite <- (Hcells (i - 1)) by lia.
    destruct (rd a i) as [cur| |]; cbn; [|done..].
    destruct (rd a (i - 1)) as [prev| |]; cbn; [|done..].
    destruct (cur <? prev).
    + eapply orel_mono; [|apply agree_wr; exact (conj Hlen Hcells)].
      intros a' b'. apply agree_weaken. cbn. lia.
    + cbn. split; [done|]. intros k Hk. apply Hcells. lia.
Qed.

Lemma repair_indep (hist_bin_count : Z) (m1 m2 : list Z) :
  alen m1 = 256 ->
  agree (fun k => 1 <= k <= 253 /\ Z.rem k 2 <> 0) m1 m2 ->
  repair hist_bin_count m1 = repair hist_bin_count m2.
Proof.
  intros Hlen Hag. apply orel_eq. unfold repair.
  apply orel_bind with (R := fun a b => alen a = 256 /\ repair_rel 0 a b).
  - pose proof (agree_wr _ _ _ 255 hist_bin_count Hag) as Hwr.
    rewrite (wr_inside m1) in * by lia.
    destruct (wr m2 255 hist_bin_count); cbn in *; try done.
    split; [unfold alen in *; by rewrite length_insert|].
    eapply agree_weaken; [|exact Hwr]. cbn. lia.
  - intros a b [Hlena Hab].
    apply orel_bind with (R := fun a b => alen a = 256 /\ repair_rel 1 a b).
    + pose proof (agree_wr _ _ _ 0 0 Hab) as Hwr.
      rewrite (wr_inside a) in * by lia.
      destruct (wr b 0 0); cbn in *; try done.
      split; [unfold alen in *; by rewrite length_insert|].
      eapply agree_weaken; [|exact Hwr]. cbn. lia.
    + intros a' b' [Hlena' Hab'].
      pose proof (for_range_rel
                    (fun i a b => alen a = 256 /\ repair_rel i a b)
                    1 255 repair_step repair_step a' b') as Hloop.
      eapply orel_mono; [|apply Hloop].
      * cbn. intros r1 r2 [Hl Hr]. eapply agree_eq; [exact Hr|].
        cbn. lia.
      * by split.
      * intros j u v Hj [Hl Hr].
        pose proof (repair_step_rel j u v Hj Hr) as Hstep.
        destruct (repair_step j u) as [u'| |] eqn:Hu,
                 (repair_step j v) as [v'| |]; cbn in *; try done.
        split; [|done]. destruct Hstep as [Hlen' _].
        destruct Hr as [Hluv _].
        assert (alen u' = alen u); [|lia].
        clear - Hu. unfold repair_step in Hu.
        destruct (Z.rem j 2 =? 0).
        -- destruct (rd u (j - 1)); cbn in Hu; [|done..].
           destruct (rd u (j + 1)); cbn in Hu; [|done..].
           destruct (wr u j _) as [w| |] eqn:Hw; cbn in Hu; [|done..].
           apply alen_wr in Hw. rewrite <- Hw.
           destruct (rd w j); cbn in Hu; [|done..].
           destruct (rd w (j - 1)); cbn in Hu; [|done..].
           destruct (_ <? _); [by apply alen_wr in Hu|congruence].
        -- cbn in Hu.
           destruct (rd u j); cbn in Hu; [|done..].
           destruct (rd u (j - 1)); cbn in Hu; [|done..].
           destruct (_ <? _); [by apply alen_wr in Hu|congruence].
Qed.

Lemma Haleq_fuel_alen (fuel : nat) (y hist m r : list Z)
    (left right level il ir : Z) :
  Haleq_fuel fuel y hist m left right level il ir = Done r -> alen r = alen m.
Proof.
  revert m r left right level il ir.
  induction fuel as [|fuel IH]; intros m r left right level il ir; [done|].
  cbn [Haleq_fuel].
  destruct (if 0 <? left then rd hist (left - 1) else Done 0);
    cbn [obind]; [|done..].
  destruct (rd hist right); cbn [obind]; [|done..].
  destruct (rd y _); cbn [obind]; [|done..].
  destruct (wr m _ _) as [m1| |] eqn:Hwr; cbn [obind]; [|done..].
  apply alen_wr in Hwr.
  destruct (5 <? level); [intros [= <-]; done|].
  destruct (Haleq_fuel fuel y hist m1 _ _ _ _ _) as [m2| |] eqn:H1;
    cbn [obind]; [|done..].
  intros H2. apply IH in H1, H2. lia.
Qed.

(** One step of the repair loop on a 256-slot table. *)
Lemma repair_step_spec (i : Z) (m : list Z) :
  1 <= i < 255 -> alen m = 256 ->
  exists m', repair_step i m = Done m' /\ alen m' = 256 /\
    forall k, aget m' k =
      if k =? i
      then Z.max (aget m (i - 1))
             (if Z.rem i 2 =? 0
              then Z.quot (aget m (i - 1) + aget m (i + 1)) 2
              else aget m i)
      else aget m k.
Proof.
  intros Hi Hlen. unfold repair_step.
  destruct (Z.rem i 2 =? 0).
  - rewrite (rd_aget m (i - 1)), (rd_aget m (i + 1)) by lia. cbn.
    set (avg := Z.quot (aget m (i - 1) + aget m (i + 1)) 2).
    destruct (wr m i avg) as [m1| |] eqn:Hwr;
      [|rewrite wr_inside in Hwr by lia; done..].
    cbn. pose proof (alen_wr _ _ _ _ Hwr) as Hlen1.
    rewrite (rd_aget m1 i), (rd_aget m1 (i - 1)) by lia. cbn.
    rewrite !(aget_wr _ _ _ _ _ Hwr), Z.eqb_refl.
    replace (i - 1 =? i) with false by lia.
    destruct (avg <? aget m (i - 1)) eqn:Hcmp.
    + apply Z.ltb_lt in Hcmp.
      destruct (wr m1 i (aget m (i - 1))) as [m2| |] eqn:Hwr2;
        [|rewrite wr_inside in Hwr2 by lia; done..].
      exists m2. split; [done|]. split; [rewrite (alen_wr _ _ _ _ Hwr2); lia|].
      intros k. rewrite (aget_wr _ _ _ k _ Hwr2), (aget_wr _ _ _ k _ Hwr).
      destruct (k =? i); [lia|done].
    + apply Z.ltb_ge in Hcmp. exists m1. split; [done|]. split; [lia|].
      intros k. rewrite (aget_wr _ _ _ k _ Hwr).
      destruct (k =? i); [lia|done].
  - cbn. rewrite (rd_aget m i), (rd_aget m (i - 1)) by lia. cbn.
    destruct (aget m i <? aget m (i - 1)) eqn:Hcmp.
    + apply Z.ltb_lt in Hcmp.
      destruct (wr m i (aget m (i - 1))) as [m2| |] eqn:Hwr2;
        [|rewrite wr_inside in Hwr2 by lia; done..].
      exists m2. split; [done|]. split; [rewrite (alen_wr _ _ _ _ Hwr2); lia|].
      intros k. rewrite (aget_wr _ _ _ k _ Hwr2).
      destruct (k =? i); [lia|done].
    + apply Z.ltb_ge in Hcmp. exists m. split; [done|]. split; [done|].
      intros k. destruct (k =? i) eqn:Hk; [|done].
      apply Z.eqb_eq in Hk. subst k. lia.
Qed.

(** The repair pass on a 256-slot table completes; the table it leaves
    starts at 0, ends at [hist_bin_count] and does not decrease up to slot
    254; it stays below [hist_bin_count] when the odd slots did. *)
Lemma repair_total (hist_bin_count : Z) (m : list Z) :
  alen m = 256 ->
  exists m', repair hist_bin_count m = Done m' /\ alen m' = 256 /\
    aget m' 0 = 0 /\ aget m' 255 = hist_bin_count /\
    (forall k, 0 <= k < 254 -> aget m' k <= aget m' (k + 1)) /\
    (0 <= hist_bin_count ->
     (forall k, 1 <= k <= 253 -> Z.rem k 2 <> 0 -> aget m k <= hist_bin_count) ->
     forall k, 0 <= k <= 255 -> aget m' k <= hist_bin_count).
Proof.
  intros Hlen. unfold repair.
  destruct (wr m 255 hist_bin_count) as [m1| |] eqn:Hw1;
    [|rewrite wr_inside in Hw1 by lia; done..].
  pose proof (alen_wr _ _ _ _ Hw1) as Hlen1. cbn.
  destruct (wr m1 0 0) as [m2| |] eqn:Hw2;
    [|rewrite wr_inside in Hw2 by lia; done..].
  pose proof (alen_wr _ _ _ _ Hw2) as Hlen2. cbn.
  set (bounded := 0 <= hist_bin_count /\
         forall k, 1 <= k <= 253 -> Z.rem k 2 <> 0 -> aget m k <= hist_bin_count).
  destruct (for_range_total (repair_inv hist_bin_count bounded)
              1 255 repair_step m2) as (m' & Hrun & Hinv).
  - split; [lia|]. split; [|split; [|split]].
    + by rewrite (aget_wr _ _ _ _ _ Hw2).
    + rewrite (aget_wr _ _ _ _ _ Hw2), (aget_wr _ _ _ _ _ Hw1). done.
    + intros k Hk0 Hk1. lia.
    + intros [Hb0 Hb] k Hk.
      rewrite (aget_wr _ _ _ _ _ Hw2), (aget_wr _ _ _ _ _ Hw1).
      destruct (k =? 0) eqn:E0; [lia|].
      destruct (k =? 255) eqn:E255; [lia|].
      apply Hb; lia.
  - intros j t Hj (Hl & H0 & H255 & Hmono & Hbnd).
    destruct (repair_step_spec j t Hj Hl) as (t' & Hstep & Hl' & Hget).
    exists t'. split; [done|]. split; [done|].
    split; [|split; [|split]].
    + rewrite Hget. replace (0 =? j) with false by lia. done.
    + rewrite Hget. replace (255 =? j) with false by lia. done.
    + intros k Hk0 Hk1. rewrite (Hget k), (Hget (k + 1)).
      replace (k =? j) with false by lia.
      destruct (k + 1 =? j) eqn:E.
      * apply Z.eqb_eq in E. replace (j - 1) with k by lia. lia.
      * apply Z.eqb_neq in E. apply Hmono; lia.
    + intros Hb k Hk. specialize (Hbnd Hb). rewrite Hget.
      destruct (k =? j) eqn:E; [|apply Z.eqb_neq in E; apply Hbnd; lia].
      apply Z.eqb_eq in E. subst k.
      assert (Hp : aget t (j - 1) <= hist_bin_count) by (apply Hbnd; lia).
      destruct (Z.rem j 2 =? 0) eqn:Hrem.
      * apply Z.eqb_eq in Hrem.
        assert (Hn : aget t (j + 1) <= hist_bin_count).
        { apply Hbnd. right. lia_quot. }
        destruct Hb as [Hb0 _]. lia_quot.
      * apply Z.eqb_neq in Hrem.
        assert (Hn : aget t j <= hist_bin_count).
        { apply Hbnd. right. right. lia_quot. }
        lia.
  - exists m'. split; [done|].
    destruct Hinv as (Hl & H0 & H255 & Hmono & Hbnd).
    replace (Z.max 1 255) with 255 in * by lia.
    split; [done|]. split; [done|]. split; [done|].
    split; [intros k Hk; apply Hmono; lia|].
    intros Hb0 Hb k Hk. apply Hbnd; [by split|lia].
Qed.

(** Lines 182-188: the cells of [map_index_leq] lying in some anchor
    interval are written, whatever the array held before. *)
Lemma expand_indep (m a1 a2 : list Z) :
  agree (fun _ => False) a1 a2 ->
  orel (fun r1 r2 => alen r1 = alen a1 /\ agree (in_interval m 255) r1 r2)
    (expand m a1) (expand m a2).
Proof.
  intros Hag. unfold expand.
  pose proof (for_range_rel
                (fun j (r1 r2 : list Z) =>
                   alen r1 = alen a1 /\ agree (in_interval m j) r1 r2)
                0 255) as Hloop.
  apply Hloop.
  { split; [done|]. eapply agree_weaken; [|exact Hag].
    intros k (i & Hi & _). lia. }
  intros j u v Hj [Hlen Huv].
  destruct (rd m j) as [lo| |] eqn:Hlo; cbn; [|done..].
  destruct (rd m (j + 1)) as [hi| |] eqn:Hhi; cbn; [|done..].
  apply rd_Done_aget in Hlo, Hhi.
  eapply orel_mono;
    [|apply for_range_rel with
        (R := fun k0 r1 r2 =>
                alen r1 = alen a1 /\
                agree (fun k => in_interval m j k \/ lo <= k < k0) r1 r2)].
  - cbn. intros r1 r2 [Hl Hr]. split; [done|].
    eapply agree_weaken; [|exact Hr]. cbn.
    intros k (i & Hi & Hk).
    destruct (decide (i = j)) as [->|Hne].
    + right. lia.
    + left. exists i. split; [lia|done].
  - split; [done|]. eapply agree_weaken; [|exact Huv]. cbn.
    intros k [Hk|Hk]; [done|lia].
  - intros k0 r1 r2 Hk0 [Hl Hr].
    pose proof (agree_wr _ _ _ k0 j Hr) as Hwr.
    destruct (wr r1 k0 j) as [r1'| |] eqn:Hw1, (wr r2 k0 j) as [r2'| |];
      cbn in *; try done.
    split; [rewrite (alen_wr _ _ _ _ Hw1); done|].
    eapply agree_weaken; [|exact Hwr]. cbn.
    intros k [Hk|Hk]; [by left; left|].
    destruct (decide (k = k0)); [by right|left; right; lia].
Qed.

(** Between a first slot at or below [k] and a last slot above [k] some
    interval contains [k]. *)
Lemma interval_cover (m : list Z) (k : Z) (n : nat) :
  aget m 0 <= k < aget m (Z.of_nat n) ->
  in_interval m (Z.of_nat n) k.
Proof.
  induction n as [|n IH]; intros Hk;
    [change (Z.of_nat 0) with 0 in Hk; lia|].
  replace (Z.of_nat (Datatypes.S n)) with (Z.of_nat n + 1) in * by lia.
  destruct (decide (k < aget m (Z.of_nat n))) as [Hlt|Hge].
  - destruct IH as (i & Hi & Hik); [lia|].
    exists i. split; [lia|done].
  - exists (Z.of_nat n). split; [lia|]. lia.
Qed.

(** Lines 190-193. *)
Lemma emit_indep (map_index_log map_index_leq : list Z)
    (hist_bin_count block_start_index : Z) (t1 t2 : list Q) :
  alen t1 = alen t2 ->
  orel (agree (fun k => block_start_index <= k <
                        block_start_index + Z.max 0 hist_bin_count))
    (emit map_index_log map_index_leq hist_bin_count block_start_index t1)
    (emit map_index_log map_index_leq hist_bin_count block_start_index t2).
Proof.
  intros Hlen. unfold emit.
  eapply orel_mono;
    [|apply for_range_rel with
        (R := fun j r1 r2 =>
                agree (fun k => block_start_index <= k < block_start_index + j)
                  r1 r2)].
  - cbn. intros r1 r2. apply agree_weaken. cbn. lia.
  - split; [done|]. intros k Hk. lia.
  - intros j u v Hj Huv.
    destruct (rd map_index_log j) as [c| |]; cbn; [|done..].
    destruct (rd map_index_leq c) as [x| |]; cbn; [|done..].
    eapply orel_mono; [|apply agree_wr; exact Huv].
    cbn. intros r1 r2. apply agree_weaken. cbn. lia.
Qed.

Lemma find_top_range (n : nat) (hist : list Z) (top : Z) :
  find_top n hist = Done top -> 0 <= top /\ top < Z.max 1 (Z.of_nat n).
Proof.
  induction n as [|n IH]; cbn.
  - intros [= <-]. lia.
  - destruct (rd hist (Z.of_nat n)) as [h| |]; cbn; [|done..].
    destruct (0 <? h).
    + intros [= <-]. lia.
    + intros H. apply IH in H. lia.
Qed.

Lemma log_bin_alen (hist : list Z) (i index : Z) (s s' : list Z * list Z) :
  log_bin hist i index s = Done s' ->
  alen (fst s') = alen (fst s) /\ alen (snd s') = alen (snd s).
Proof.
  unfold log_bin.
  destruct (rd hist i); cbn; [|done..].
  destruct (rd (fst s) index); cbn; [|done..].
  destruct (wr (fst s) index _) as [hl| |] eqn:H1; cbn; [|done..].
  destruct (wr (snd s) i index) as [ml| |] eqn:H2; cbn; [|done..].
  intros [= <-]. cbn. by rewrite (alen_wr _ _ _ _ H1), (alen_wr _ _ _ _ H2).
Qed.

Lemma compress_alen (ls : log_stage) (hist : list Z)
    (hist_bin_count y_max : Z) (s s' : list Z * list Z) :
  compress ls hist hist_bin_count y_max s = Done s' ->
  alen (fst s') = alen (fst s) /\ alen (snd s') = alen (snd s).
Proof.
  set (P := fun t : list Z * list Z =>
              alen (fst t) = alen (fst s) /\ alen (snd t) = alen (snd s)).
  assert (Hstep : forall (f : Z -> Z) lo hi t t',
             P t ->
             for_range lo hi (fun i st => log_bin hist i (f i) st) t = Done t' ->
             P t').
  { intros f lo hi t t' Ht Hrun.
    refine (for_range_post (fun _ => P) lo hi _ t t' Ht _ Hrun).
    intros j u u' _ [Hu1 Hu2] Hb. apply log_bin_alen in Hb. unfold P. lia. }
  unfold compress.
  destruct (if y_max <? ls_thres ls then _ else _) as [s1| |] eqn:H1;
    cbn; [|done..].
  assert (Hs1 : P s1).
  { destruct (y_max <? ls_thres ls).
    - apply (Hstep (ls_index0 ls) _ _ s s1 ltac:(by split) H1).
    - match type of H1 with
      | obind ?o _ = _ => destruct o as [s0| |] eqn:H0; cbn in H1; [|done..]
      end.
      eapply (Hstep (fun i => y_max - ls_index1 ls (y_max - i)) _ _ s0 s1);
        [|exact H1].
      apply (Hstep (ls_index0 ls) _ _ s s0 ltac:(by split) H0). }
  intros Hrun.
  refine (for_range_post (fun _ => P) y_max hist_bin_count _ s1 s' Hs1 _ Hrun).
  intros j u u' _ [Hu1 Hu2] Hb.
  destruct (rd (snd u) (y_max - 1)); cbn in Hb; [|done..].
  apply log_bin_alen in Hb. unfold P. lia.
Qed.

(** C4.  [Block_split_haleq] is deterministic and reads no cell it has not
    written: two runs on the same histogram, bin count, pixel count and
    block offset end alike, and when they complete the curve region of the
    table holds the same values, whatever the four uninitialised arrays
    (the 256 anchors among them) and the table held before. *)
Theorem Block_split_haleq_deterministic (ls : log_stage) (jk1 jk2 : junk)
    (hist : list Z) (hist_bin_count pixel_num block_start_index : Z)
    (t1 t2 : list Q) :
  alen t1 = alen t2 ->
  orel (fun r1 r2 =>
          alen r1 = alen r2 /\
          forall i, 0 <= i < hist_bin_count ->
                    rd r1 (i + block_start_index) = rd r2 (i + block_start_index))
    (Block_split_haleq ls jk1 hist hist_bin_count pixel_num block_start_index t1)
    (Block_split_haleq ls jk2 hist hist_bin_count pixel_num block_start_index t2).
Proof.
  intros Hlen. unfold Block_split_haleq.
  destruct (find_top _ hist) as [top| |] eqn:Htop; cbn [obind]; [|done..].
  destruct (read_all hist hist_bin_count) as [[]| |]; cbn [obind]; [|done..].
  apply find_top_range in Htop as [Htop0 _].
  set (hl0 := replicate (Z.to_nat hist_bin_count) 0).
  assert (Hc : orel (compress_rel (Z.max (top + 1) hist_bin_count))
            (compress ls hist hist_bin_count (top + 1)
               (hl0, alloc (junk_map_index_log jk1) hist_bin_count))
            (compress ls hist hist_bin_count (top + 1)
               (hl0, alloc (junk_map_index_log jk2) hist_bin_count))).
  { apply compress_indep; [lia|]. split; [done|].
    eapply agree_outside; [|apply agree_alloc]. cbn. lia. }
  destruct (compress ls hist hist_bin_count (top + 1)
              (hl0, alloc (junk_map_index_log jk1) hist_bin_count))
    as [st1| |] eqn:Hc1,
    (compress ls hist hist_bin_count (top + 1)
       (hl0, alloc (junk_map_index_log jk2) hist_bin_count))
    as [st2| |] eqn:Hc2;
    cbn in Hc; try done; cbn [obind].
  destruct Hc as [Hfst Hsnd].
  pose proof (compress_alen _ _ _ _ _ _ Hc1) as [Hl1 Hl2]. cbn in Hl1, Hl2.
  assert (Hst : st1 = st2).
  { destruct st1 as [hl1 ml1], st2 as [hl2 ml2]. cbn in *. f_equal; [done|].
    eapply agree_eq; [exact Hsnd|]. intros k Hk.
    rewrite Hl2, alen_alloc in Hk. cbn. lia. }
  subst st2. clear Hc2 Hfst Hsnd.
  set (top_rank := psum (fst st1) (Z.max 0 hist_bin_count)).
  apply orel_bind with (R := agree (fun k => 0 <= k <= top_rank)).
  { apply fill_sort_y_indep. apply agree_alloc. }
  intros sy1 sy2 Hsy.
  destruct (accumulate (fst st1) hist_bin_count) as [cum| |] eqn:Hacc;
    cbn [obind]; [|done..].
  apply accumulate_bound in Hacc as [Hcl Hcv];
    [|rewrite Hl1; unfold hl0; rewrite alen_replicate; lia].
  unfold Haleq. change (Haleq_depth 0) with 7%nat.
  assert (HH : orel (fun r1 r2 =>
            alen r1 = alen r2 /\
            forall k, In k (Haleq_slots 7 0 0 255) \/
                      rd (alloc (junk_map_leq_index jk1) 256) k =
                      rd (alloc (junk_map_leq_index jk2) 256) k ->
                      rd r1 k = rd r2 k)
            (Haleq_fuel 7 sy1 cum (alloc (junk_map_leq_index jk1) 256)
               0 (hist_bin_count - 1) 0 0 255)
            (Haleq_fuel 7 sy2 cum (alloc (junk_map_leq_index jk2) 256)
               0 (hist_bin_count - 1) 0 0 255)).
  { apply (Haleq_fuel_indep top_rank); [apply psum_nonneg|exact Hsy| |].
    - intros k Hk. rewrite (Hcv k Hk). apply csum_le_psum. lia.
    - by rewrite !alen_alloc. }
  destruct (Haleq_fuel 7 sy1 cum (alloc (junk_map_leq_index jk1) 256) _ _ _ _ _)
    as [r1| |] eqn:Hr1,
    (Haleq_fuel 7 sy2 cum (alloc (junk_map_leq_index jk2) 256) _ _ _ _ _)
    as [r2| |] eqn:Hr2;
    cbn in HH; try done; cbn [obind].
  destruct HH as [Hrlen Hrcells].
  apply Haleq_fuel_alen in Hr1. rewrite alen_alloc in Hr1.
  assert (Hr256 : alen r1 = 256) by lia.
  rewrite <- (repair_indep hist_bin_count r1 r2 Hr256).
  2:{ split; [done|]. intros k [Hk Hodd]. apply Hrcells. left.
      by apply Haleq_slots_odd. }
  destruct (repair_total hist_bin_count r1 Hr256)
    as (m & Hrep & _ & Hm0 & Hm255 & _).
  rewrite Hrep. cbn [obind].
  pose proof (expand_indep m
                (alloc (junk_map_index_leq jk1) hist_bin_count)
                (alloc (junk_map_index_leq jk2) hist_bin_count)
                (agree_alloc _ _ _)) as He.
  destruct (expand m (alloc (junk_map_index_leq jk1) hist_bin_count))
    as [a1| |],
    (expand m (alloc (junk_map_index_leq jk2) hist_bin_count))
    as [a2| |];
    cbn in He; try done; cbn [obind].
  destruct He as [Halen Ha].
  assert (Ha12 : a1 = a2).
  { eapply agree_eq; [exact Ha|]. intros k Hk.
    rewrite Halen, alen_alloc in Hk.
    apply (interval_cover m k 255). change (Z.of_nat 255) with 255. lia. }
  subst a2.
  eapply orel_mono; [|apply emit_indep; exact Hlen].
  cbn. intros r1' r2' [Hl Hcells]. split; [done|].
  intros i Hi. apply Hcells. lia.
Qed.

(** ** Runs of [Block_split_haleq] on a valid block *)




















Lemma emit_frame (map_index_log map_index_leq : list Z)
    (hist_bin_count block_start_index : Z) (t t' : list Q) :
  emit map_index_log map_index_leq hist_bin_count block_start_index t
    = Done t' ->
  alen t' = alen t /\
  forall k, ~ (block_start_index <= k < block_start_index + hist_bin_count) ->
            rd t' k = rd t k.
Proof.
  unfold emit. intros Hrun.
  apply (for_range_post
           (fun j (u : list Q) =>
              alen u = alen t /\
              forall k, ~ (block_start_index <= k < block_start_index + j) ->
                        rd u k = rd t k)) in Hrun.
  - destruct Hrun as [Hlen Hout]. split; [done|].
    intros k Hk. apply Hout. lia.
  - by split.
  - intros j u u' Hj [Hu Huout] Hbody.
    destruct (rd map_index_log j) as [c| |]; cbn [obind] in Hbody; [|done..].
    destruct (rd map_index_leq c) as [v| |]; cbn [obind] in Hbody; [|done..].
    split; [by rewrite (alen_wr _ _ _ _ Hbody)|].
    intros k Hk. rewrite (rd_wr _ _ _ _ _ Hbody).
    destruct (Z.eqb_spec k (j + block_start_index)); [lia|].
    apply Huout. lia.
Qed.



(** ** The curve of a valid block *)







(** C5.  [Haleq] terminates on every input: a call recurses only while
    [level <= 5] and each recursive call is one level deeper, so a call at
    a level above 5 needs one activation, a call at level 0 needs at most
    seven nested ones, and with [Haleq_depth level] or more of them the run
    never stops for lack of fuel and always gives the same result. *)
Theorem Haleq_terminates (fuel : nat) (y hist hist_leq : list Z)
    (left right level index_left index_right : Z) :
  (Haleq_depth level <= fuel)%nat ->
  Haleq_fuel fuel y hist hist_leq left right level index_left index_right
    = Haleq y hist hist_leq left right level index_left index_right /\
  Haleq y hist hist_leq left right level index_left index_right <> OutOfFuel /\
  (5 < level -> Haleq_depth level = 1%nat) /\
  (0 <= level -> (Haleq_depth level <= 7)%nat).
Proof.
  intros Hfuel. unfold Haleq.
  destruct (Haleq_fuel_enough fuel (Haleq_depth level) y hist hist_leq
              left right level index_left index_right Hfuel (le_n _))
    as [Heq Hne].
  split; [done|]. split; [by rewrite <- Heq|].
  unfold Haleq_depth. split; lia.
Qed.

(** ** The table and the block loop *)

(** C9.  A call of [Block_split_haleq] that completes has written only the
    table cells from [block_start_index] to
    [block_start_index + hist_bin_count - 1]: the table keeps its length
    and every other cell; and the regions that the block loop assigns to
    two different blocks of the four by four grid have no cell in common. *)
Theorem Block_split_haleq_frame :
  (forall (ls : log_stage) (jk : junk) (hist : list Z)
          (hist_bin_count pixel_num block_start_index : Z) (t t' : list Q),
     Block_split_haleq ls jk hist hist_bin_count pixel_num block_start_index t
       = Done t' ->
     alen t' = alen t /\
     forall k,
       ~ (block_start_index <= k < block_start_index + hist_bin_count) ->
       rd t' k = rd t k) /\
  (forall (width height hist_bin_count : Z)
          (block_row block_col height_per_block : Z)
          (block_row' block_col' height_per_block' : Z),
     0 <= block_row < NewTonemapping.block_factor -> 0 <= block_col < NewTonemapping.block_factor ->
     0 <= block_row' < NewTonemapping.block_factor -> 0 <= block_col' < NewTonemapping.block_factor ->
     (block_row, block_col) <> (block_row', block_col') ->
     let g := NewTonemapping.block_geometry width height hist_bin_count
                block_row block_col height_per_block in
     let g' := NewTonemapping.block_geometry width height hist_bin_count
                 block_row' block_col' height_per_block' in
     forall k,
       ~ (NewTonemapping.bg_block_start_index g <= k < NewTonemapping.bg_block_start_index g + hist_bin_count /\
          NewTonemapping.bg_block_start_index g' <= k < NewTonemapping.bg_block_start_index g' + hist_bin_count)).
Proof.
  split.
  - intros ls jk hist hist_bin_count pixel_num block_start_index t t' Hrun.
    unfold Block_split_haleq in Hrun.
    repeat match type of Hrun with
           | obind ?o _ = Done _ =>
             destruct o; cbn [obind] in Hrun; [|done..]
           end.
    by apply emit_frame in Hrun.
  - intros width height hist_bin_count block_row block_col height_per_block
      block_row' block_col' height_per_block' Hr Hc Hr' Hc' Hne g g' k.
    subst g g'. unfold NewTonemapping.block_geometry, NewTonemapping.block_factor in *.
    cbn [NewTonemapping.bg_block_start_index].
    intros [H1 H2].
    assert (Hn : block_row * 4 + block_col <> block_row' * 4 + block_col').
    { intros Heq. apply Hne. f_equal; lia. }
    nia.
Qed.

(** When the height is a multiple of four the last block row is like the
    others and every row belongs to the block row [row / (height / 4)] of
    each block column. *)
Lemma block_trace_height_8 :
  map (fun g => (NewTonemapping.bg_start_index g, NewTonemapping.block_rows 8 g)) (NewTonemapping.block_trace 8 8 256) =
  [(0, [0; 1]); (2, [0; 1]); (4, [0; 1]); (6, [0; 1]);
   (16, [2; 3]); (18, [2; 3]); (20, [2; 3]); (22, [2; 3]);
   (32, [4; 5]); (34, [4; 5]); (36, [4; 5]); (38, [4; 5]);
   (48, [6; 7]); (50, [6; 7]); (52, [6; 7]); (54, [6; 7])].
Proof. vm_compute. reflexivity. Qed.

(** The sixteen iterations: [height_per_block] is [height / 4] up to the
    first block of the last row and [height / 4 + height % 4] after it. *)
Lemma block_trace_unfold (width height hist_bin_count : Z) :
  NewTonemapping.block_trace width height hist_bin_count =
  let q := Z.quot height 4 in
  let last := Z.quot height 4 + Z.rem height 4 in
  let g := NewTonemapping.block_geometry width height hist_bin_count in
  [g 0 0 q; g 0 1 q; g 0 2 q; g 0 3 q;
   g 1 0 q; g 1 1 q; g 1 2 q; g 1 3 q;
   g 2 0 q; g 2 1 q; g 2 2 q; g 2 3 q;
   g 3 0 q; g 3 1 last; g 3 2 last; g 3 3 last].
Proof.
  unfold NewTonemapping.block_trace, NewTonemapping.block_loop, for_range.
  change (Z.to_nat (NewTonemapping.block_factor - 0)) with 4%nat.
  cbn [for_up obind fst snd app NewTonemapping.bg_height
       NewTonemapping.block_geometry Z.add Pos.add Pos.succ].
  reflexivity.
Qed.

(** In general the iterations of the last block row start at row
    [3 * (height / 4)] for block column 0 and at row
    [3 * (height / 4 + height % 4)] for block columns 1 to 3. *)
Lemma block_trace_last_row (width height hist_bin_count : Z) :
  map NewTonemapping.bg_start_index
    (skipn 12 (NewTonemapping.block_trace width height hist_bin_count)) =
  [3 * Z.quot height 4 * width + 0 * Z.quot width 4;
   3 * (Z.quot height 4 + Z.rem height 4) * width + 1 * Z.quot width 4;
   3 * (Z.quot height 4 + Z.rem height 4) * width + 2 * Z.quot width 4;
   3 * (Z.quot height 4 + Z.rem height 4) * width + 3 * Z.quot width 4].
Proof. rewrite block_trace_unfold. reflexivity. Qed.

(** Whenever the height is not a multiple of four, the block of the last
    row and block column 1 starts below row [3 * (height / 4)] and ends
    beyond the last row of the grid. *)
Lemma block_trace_last_row_drift (width height hist_bin_count : Z) :
  0 < width -> 0 <= height -> Z.rem height 4 <> 0 ->
  exists g,
    g ∈ NewTonemapping.block_trace width height hist_bin_count /\
    NewTonemapping.bg_start_index g =
      3 * (Z.quot height 4 + Z.rem height 4) * width + 1 * Z.quot width 4 /\
    NewTonemapping.bg_height g = Z.quot height 4 + Z.rem height 4 /\
    Z.quot (NewTonemapping.bg_start_index g) width =
      3 * (Z.quot height 4 + Z.rem height 4) /\
    3 * Z.quot height 4 < Z.quot (NewTonemapping.bg_start_index g) width /\
    height < Z.quot (NewTonemapping.bg_start_index g) width
             + NewTonemapping.bg_height g.
Proof.
  intros Hw Hh Hrem.
  exists (NewTonemapping.block_geometry width height hist_bin_count 3 1
            (Z.quot height 4 + Z.rem height 4)).
  split.
  { rewrite block_trace_unfold. cbv zeta.
    do 13 apply list_elem_of_further. apply list_elem_of_here. }
  cbn [NewTonemapping.block_geometry NewTonemapping.bg_start_index
       NewTonemapping.bg_height].
  unfold NewTonemapping.block_factor.
  change (3 =? 4 - 1) with true. cbn iota.
  set (q := Z.quot height 4) in *. set (r := Z.rem height 4) in *.
  assert (Hq : height = 4 * q + r) by (subst q r; apply Z.quot_rem').
  assert (Hr : 1 <= r <= 3) by (subst r; lia_quot).
  assert (Hstart : Z.quot (3 * (q + r) * width + 1 * Z.quot width 4) width
                   = 3 * (q + r)).
  { assert (0 <= Z.quot width 4 < width) by lia_quot.
    assert (0 <= q) by (subst q; lia_quot).
    symmetry. apply (Z.quot_unique _ _ _ (1 * Z.quot width 4)); nia. }
  rewrite Hstart. lia.
Qed.

(** Every block of [block_trace] has been worked on by a run of the
    loops that completes. *)
Lemma block_loop_bodies {T : Type} (width height hist_bin_count : Z)
    (body : NewTonemapping.block_geom -> T -> outcome T) (t : T)
    (st : Z * T) :
  NewTonemapping.block_loop width height hist_bin_count body t = Done st ->
  Forall (fun g => exists u u', body g u = Done u')
    (NewTonemapping.block_trace width height hist_bin_count).
Proof.
  intros Hrun. unfold NewTonemapping.block_trace.
  set (P := fun g => exists u u', body g u = Done u').
  set (R := fun (_ : Z) (u : Z * T) (v : Z * list NewTonemapping.block_geom) =>
              fst u = fst v /\ Forall P (snd v)).
  unfold NewTonemapping.block_loop in *.
  eapply (for_range_sim R) in Hrun as (v & Hv & _ & Hall).
  - rewrite Hv. exact Hall.
  - split; [done|]. cbn. constructor.
  - intros block_row u v u' _ Huv Hrow.
    eapply (for_range_sim R) in Hrow as (v' & Hv' & Hr).
    + exists v'. split; [exact Hv'|exact Hr].
    + exact Huv.
    + intros block_col a b a' _ [Hfst Hb] Hbody.
      rewrite <- Hfst.
      set (g := NewTonemapping.block_geometry width height hist_bin_count
                  block_row block_col (fst a)) in *.
      destruct (body g (snd a)) as [t'| |] eqn:Ht'; cbn in Hbody; [|done..].
      injection Hbody as <-. eexists. split; [reflexivity|].
      split; [done|]. cbn [snd]. apply Forall_app. split; [done|].
      constructor; [|constructor]. by exists (snd a), t'.
Qed.

(** A histogram of a block that has been built has read all its cells
    inside [stats]. *)
Lemma block_hist_reads (stats : list Z) (width hist_bin_count : Z)
    (g : NewTonemapping.block_geom) (h : list Z) (i j : Z) :
  NewTonemapping.block_hist stats width hist_bin_count g = Done h ->
  0 <= i < NewTonemapping.bg_height g ->
  0 <= j < Z.quot width NewTonemapping.block_factor ->
  0 <= NewTonemapping.bg_start_index g + i * width + j < alen stats.
Proof.
  unfold NewTonemapping.block_hist. intros Hrun Hi Hj.
  set (w4 := Z.quot width NewTonemapping.block_factor) in *.
  set (inside := fun i' j' =>
         0 <= NewTonemapping.bg_start_index g + i' * width + j' < alen stats).
  set (rows := fun (i0 : Z) (_ : list Z) =>
         forall i' j', 0 <= i' < i0 -> 0 <= j' < w4 -> inside i' j').
  assert (Hrows : rows (Z.max 0 (NewTonemapping.bg_height g)) h).
  { apply (for_range_post rows 0 _ _ _ h) in Hrun; [exact Hrun| |].
    - intros i' j' Hi'. lia.
    - intros i0 a a' Hi0 Hprev Hrow.
      set (cells := fun (j0 : Z) (_ : list Z) =>
             forall i' j', (0 <= i' < i0 /\ 0 <= j' < w4) \/
                           (i' = i0 /\ 0 <= j' < j0) -> inside i' j').
      assert (Hcells : cells (Z.max 0 w4) a').
      { apply (for_range_post cells 0 _ _ _ a') in Hrow; [exact Hrow| |].
        - intros i' j' [[Hi' Hj']|[_ Hj']]; [by apply Hprev|lia].
        - intros j0 b b' Hj0 Hdone Hbody i' j' Hij.
          destruct (rd stats _) as [y| |] eqn:Hrd; cbn in Hbody; [|done..].
          apply rd_Done_inv in Hrd as [Hin _].
          destruct Hij as [Hij|[-> Hj']]; [apply Hdone; by left|].
          destruct (Z.eq_dec j' j0) as [->|]; [exact Hin|].
          apply Hdone. right. lia. }
      intros i' j' Hi' Hj'. apply Hcells.
      destruct (Z.eq_dec i' i0) as [->|]; [right|left]; lia. }
  apply Hrows; lia.
Qed.

(** On a grid of [width * height] cells whose height is not a multiple of
    four, the block loop does not complete: the block of the last row and
    block column 1 reads cells beyond the grid. *)
Lemma prepare_arguments_remainder_fault
    (prologue : list Z -> Z -> log_stage) (jk : Z -> junk) (stats : list Z)
    (width height bit_depth : Z) (t t' : list Q) :
  4 <= width -> 0 <= height -> Z.rem height 4 <> 0 ->
  alen stats = width * height ->
  NewTonemapping.prepare_arguments prologue jk stats width height bit_depth t
    <> Done t'.
Proof.
  intros Hw Hh Hrem Hlen Hrun.
  unfold NewTonemapping.prepare_arguments in Hrun.
  match type of Hrun with
  | obind ?o _ = _ => destruct o as [st| |] eqn:Hloop; cbn in Hrun; [|done..]
  end.
  apply block_loop_bodies in Hloop.
  destruct (block_trace_last_row_drift width height (Z.shiftl 1 bit_depth)
              ltac:(lia) Hh Hrem)
    as (g & Hg & Hstart & Hheight & _ & _ & _).
  rewrite Forall_forall in Hloop.
  destruct (Hloop g Hg) as (u & u' & Hbody).
  destruct (NewTonemapping.block_hist stats width (Z.shiftl 1 bit_depth) g)
    as [h| |] eqn:Hhist; cbn in Hbody; [|done..].
  assert (Hq : height = 4 * Z.quot height 4 + Z.rem height 4)
    by apply Z.quot_rem'.
  assert (Hr : 1 <= Z.rem height 4 <= 3) by lia_quot.
  assert (Hq0 : 0 <= Z.quot height 4) by lia_quot.
  assert (Hw4 : 0 < Z.quot width NewTonemapping.block_factor)
    by (unfold NewTonemapping.block_factor; lia_quot).
  pose proof (block_hist_reads stats width _ g h
                (NewTonemapping.bg_height g - 1) 0 Hhist
                ltac:(lia) ltac:(lia)) as Hcell.
  unfold NewTonemapping.block_factor in Hw4.
  rewrite Hstart, Hheight, Hlen in Hcell. nia.
Qed.

(** C3 (defect of the block loop).  On a grid of 7 rows and 4 cells per
    row the iterations of the last block row start at cell
    [3 * 1 * 4 = 12] for block column 0 and, once [height_per_block] has
    been replaced by the height of the last row, at cells 49, 50 and 51
    for block columns 1 to 3: these three sample rows 12 to 15 of a grid
    whose rows are 0 to 6, and rows 3 to 6 of their columns belong to no
    block; on the 28 cells of such a grid the loop never completes. *)
Theorem block_trace_height_7 :
  map (fun g => (NewTonemapping.bg_start_index g, NewTonemapping.block_rows 4 g))
    (NewTonemapping.block_trace 4 7 256) =
  [(0, [0]); (1, [0]); (2, [0]); (3, [0]);
   (4, [1]); (5, [1]); (6, [1]); (7, [1]);
   (8, [2]); (9, [2]); (10, [2]); (11, [2]);
   (12, [3; 4; 5; 6]); (49, [12; 13; 14; 15]);
   (50, [12; 13; 14; 15]); (51, [12; 13; 14; 15])] /\
  forall prologue jk t,
    match NewTonemapping.prepare_arguments prologue jk (replicate 28 0)
            4 7 8 t with
    | Done _ => False
    | _ => True
    end.
Proof.
  split; [vm_compute; reflexivity|].
  intros prologue jk t.
  destruct (NewTonemapping.prepare_arguments _ _ _ _ _ _ _) as [t'| |] eqn:Hrun;
    [|done..].
  eapply prepare_arguments_remainder_fault; [| | | |exact Hrun];
    [lia|lia|vm_compute; discriminate|reflexivity].
Qed.

(** ** Global target estimation *)

Lemma for_down_total {S : Type} (I : Z -> S -> Prop) (n : nat)
    (body : Z -> S -> outcome S) (s : S) :
  I (Z.of_nat n) s ->
  (forall j t, 0 <= j < Z.of_nat n -> I (j + 1) t ->
     exists t', body j t = Done t' /\ I j t') ->
  exists s', Tonemapping.for_down n body s = Done s' /\ I 0 s'.
Proof.
  revert s. induction n as [|n IH]; intros s Hs Hstep; cbn [Tonemapping.for_down].
  - by exists s.
  - destruct (Hstep (Z.of_nat n) s) as (t & Hb & Ht); [lia| |].
    { replace (Z.of_nat n + 1) with (Z.of_nat (Datatypes.S n)) by lia. done. }
    rewrite Hb. cbn [obind]. apply IH; [done|].
    intros j u Hj. apply Hstep. lia.
Qed.

Lemma tonemapping_scan_total (hist_y : list Z) (hist_bin_count a b c : Z) :
  1 <= hist_bin_count ->
  alen hist_y = hist_bin_count ->
  exists s,
    Tonemapping.for_down (Z.to_nat hist_bin_count) (Tonemapping.scan_step hist_y a b c)
      {| Tonemapping.sc_pixel_num := 0; Tonemapping.sc_cumulative_value := 0; Tonemapping.sc_y_saturated := 0;
         Tonemapping.sc_y_percent_90 := 0; Tonemapping.sc_y_medium := 0 |} = Done s /\
    Tonemapping.sc_cumulative_value s = Tonemapping.weighted_sum hist_y hist_bin_count /\
    0 <= Tonemapping.sc_y_saturated s <= hist_bin_count - 1 /\
    0 <= Tonemapping.sc_y_medium s <= hist_bin_count - 1.
Proof.
  intros Hb Hlen.
  set (f := fun level => level * aget hist_y level).
  destruct (for_down_total
              (fun j s =>
                 Tonemapping.sc_cumulative_value s =
                   Tonemapping.weighted_sum hist_y hist_bin_count - zsum_upto f (Z.to_nat j) /\
                 0 <= Tonemapping.sc_y_saturated s <= hist_bin_count - 1 /\
                 0 <= Tonemapping.sc_y_medium s <= hist_bin_count - 1)
              (Z.to_nat hist_bin_count) (Tonemapping.scan_step hist_y a b c)
              {| Tonemapping.sc_pixel_num := 0; Tonemapping.sc_cumulative_value := 0;
                 Tonemapping.sc_y_saturated := 0; Tonemapping.sc_y_percent_90 := 0; Tonemapping.sc_y_medium := 0 |})
    as (s & Hrun & Hcum & Hsat & Hmed).
  - cbn [Tonemapping.sc_cumulative_value Tonemapping.sc_y_saturated Tonemapping.sc_y_medium].
    rewrite Nat2Z.id. unfold Tonemapping.weighted_sum. fold f. lia.
  - intros j t Hj (Hcum & Hsat & Hmed). unfold Tonemapping.scan_step.
    rewrite (rd_aget hist_y j) by lia. cbn [obind]. eexists. split; [done|].
    cbn [Tonemapping.sc_cumulative_value Tonemapping.sc_y_saturated Tonemapping.sc_y_medium].
    split; [|split].
    + rewrite Hcum. rewrite (zsum_upto_succ f j) by lia. unfold f. lia.
    + destruct (_ && _); lia.
    + destruct (_ && _); lia.
  - exists s. split; [done|]. split; [|done].
    rewrite Hcum. change (Z.to_nat 0) with O. cbn [zsum_upto]. lia.
Qed.

Lemma tonemapping_prepare_arguments_total (hist_y : list Z) (bit_depth pixel_totalnum : Z) :
  0 <= bit_depth ->
  alen hist_y = 2 ^ bit_depth ->
  pixel_totalnum <> 0 ->
  exists s,
    Tonemapping.prepare_arguments hist_y bit_depth pixel_totalnum
      = Done (Tonemapping.target_of_scan bit_depth pixel_totalnum s) /\
    Tonemapping.sc_cumulative_value s = Tonemapping.weighted_sum hist_y (2 ^ bit_depth) /\
    0 <= Tonemapping.sc_y_saturated s <= 2 ^ bit_depth - 1 /\
    0 <= Tonemapping.sc_y_medium s <= 2 ^ bit_depth - 1.
Proof.
  intros Hbd Hlen Htot. unfold Tonemapping.prepare_arguments.
  rewrite Z.shiftl_1_l.
  assert (Hpow : 1 <= 2 ^ bit_depth).
  { pose proof (Z.pow_pos_nonneg 2 bit_depth ltac:(lia) Hbd). lia. }
  destruct (tonemapping_scan_total hist_y (2 ^ bit_depth)
              (float_to_int (inject_Z pixel_totalnum * Tonemapping.c_0_003f))
              (float_to_int (inject_Z pixel_totalnum * Tonemapping.c_0_1f))
              (float_to_int (inject_Z pixel_totalnum * Tonemapping.c_0_5f)) Hpow Hlen)
    as (s & Hrun & Hfacts).
  rewrite Hrun. cbn [obind].
  destruct (Z.eqb_spec pixel_totalnum 0); [done|].
  by exists s.
Qed.

Lemma Qlt_bool_spec (x y : Q) : reflect (x < y)%Q (Tonemapping.Qlt_bool x y).
Proof.
  unfold Tonemapping.Qlt_bool.
  destruct (Qle_bool y x) eqn:E; cbn; constructor.
  - apply Qle_bool_iff in E. by apply Qle_not_lt.
  - apply Qnot_le_lt. intros H. apply Qle_bool_iff in H. congruence.
Qed.

Lemma quarter_le (n : Z) : 0 <= n -> (inject_Z n / 4 <= inject_Z n)%Q.
Proof. intros Hn. unfold Qle, Qdiv, Qmult, Qinv, inject_Z. cbn. lia. Qed.

Lemma quarter_ge_4 (n : Z) : 16 <= n -> (4 <= inject_Z n / 4)%Q.
Proof. intros Hn. unfold Qle, Qdiv, Qmult, Qinv, inject_Z. cbn. lia. Qed.

Lemma pow2_ge_2 (bit_depth : Z) : 1 <= bit_depth -> 2 <= 2 ^ bit_depth.
Proof.
  intros Hbd. change 2 with (2 ^ 1) at 1. apply Z.pow_le_mono_r; lia.
Qed.

Lemma bumped_saturated_pos (bit_depth pixel_totalnum : Z)
    (s : Tonemapping.scan) :
  1 <= bit_depth ->
  0 <= Tonemapping.sc_y_saturated s <= 2 ^ bit_depth - 1 ->
  1 <= Tonemapping.es_y_saturated
         (Tonemapping.target_of_scan bit_depth pixel_totalnum s).
Proof.
  intros Hbd Hsat. pose proof (pow2_ge_2 bit_depth Hbd) as Hpow.
  unfold Tonemapping.target_of_scan. cbn [Tonemapping.es_y_saturated].
  rewrite Z.shiftl_1_l.
  destruct (Z.ltb_spec (Tonemapping.sc_y_saturated s) (2 ^ bit_depth - 1)); lia.
Qed.

(** C8.  After line 108 [y_saturated] is the level found by the loop, left
    as it is when that is the top bin and one more otherwise, and it is at
    least 1 for every histogram of two bins or more, an all-zero one
    included; the divisions by [y_saturated] of lines 110 and 119 do not
    divide by zero. *)
Theorem y_saturated_positive (hist_y : list Z) (bit_depth pixel_totalnum : Z) :
  1 <= bit_depth ->
  alen hist_y = 2 ^ bit_depth ->
  pixel_totalnum <> 0 ->
  exists e,
    Tonemapping.prepare_arguments hist_y bit_depth pixel_totalnum = Done e /\
    Tonemapping.es_y_saturated e =
      (if Tonemapping.sc_y_saturated (Tonemapping.es_scan e) =? 2 ^ bit_depth - 1
       then Tonemapping.sc_y_saturated (Tonemapping.es_scan e)
       else Tonemapping.sc_y_saturated (Tonemapping.es_scan e) + 1) /\
    1 <= Tonemapping.es_y_saturated e /\
    ~ (inject_Z (Tonemapping.es_y_saturated e) == 0)%Q.
Proof.
  intros Hbd Hlen Htot.
  destruct (tonemapping_prepare_arguments_total hist_y bit_depth pixel_totalnum
              ltac:(lia) Hlen Htot) as (s & Hrun & _ & Hsat & _).
  pose proof (pow2_ge_2 bit_depth Hbd) as Hpow.
  eexists. split; [exact Hrun|].
  unfold Tonemapping.target_of_scan.
  cbn [Tonemapping.es_y_saturated Tonemapping.es_scan].
  rewrite Z.shiftl_1_l.
  assert (Hpos : 1 <= (if Tonemapping.sc_y_saturated s <? 2 ^ bit_depth - 1
                       then Tonemapping.sc_y_saturated s + 1
                       else Tonemapping.sc_y_saturated s)).
  { destruct (Z.ltb_spec (Tonemapping.sc_y_saturated s) (2 ^ bit_depth - 1)); lia. }
  split; [|split; [exact Hpos|]].
  - destruct (Z.ltb_spec (Tonemapping.sc_y_saturated s) (2 ^ bit_depth - 1)),
             (Z.eqb_spec (Tonemapping.sc_y_saturated s) (2 ^ bit_depth - 1)); lia.
  - unfold Qeq, inject_Z. cbn [Qnum Qden]. lia.
Qed.

(** The bound on the bit depth is needed: with a single bin the level
    found by the loop is the top bin, 0, and stays 0. *)
Lemma y_saturated_single_bin :
  exists e,
    Tonemapping.prepare_arguments [5] 0 5 = Done e /\
    Tonemapping.es_y_saturated e = 0.
Proof. eexists. split; [vm_compute; reflexivity|reflexivity]. Qed.

(** C2 as stated fails: on [hist_dark], which has a non-zero bin, the
    target after lines 112-117 is [2 / 4], below 4. *)
Lemma y_target_below_4 :
  exists e,
    Tonemapping.prepare_arguments hist_dark 8 1000 = Done e /\
    aget hist_dark 1 = 1000 /\
    (Tonemapping.es_y_target_pre e == 1 # 2)%Q /\
    ~ (4 <= Tonemapping.es_y_target_pre e)%Q.
Proof.
  eexists. split; [vm_compute; reflexivity|].
  split; [reflexivity|]. split; [reflexivity|].
  cbn [Tonemapping.es_y_target_pre]. unfold Qle. cbn. lia.
Qed.

(** C2, amended.  Before the rescale [y_target] is at most [y_saturated];
    it is either at least 4 or equal to [y_saturated / 4], and it is at
    least 4 whenever [y_saturated] is at least 16. *)
Theorem y_target_bounds (hist_y : list Z) (bit_depth pixel_totalnum : Z) :
  1 <= bit_depth ->
  alen hist_y = 2 ^ bit_depth ->
  pixel_totalnum <> 0 ->
  exists e,
    Tonemapping.prepare_arguments hist_y bit_depth pixel_totalnum = Done e /\
    (Tonemapping.es_y_target_pre e <= inject_Z (Tonemapping.es_y_saturated e))%Q /\
    ((4 <= Tonemapping.es_y_target_pre e)%Q \/
     Tonemapping.es_y_target_pre e = (inject_Z (Tonemapping.es_y_saturated e) / 4)%Q) /\
    (16 <= Tonemapping.es_y_saturated e -> (4 <= Tonemapping.es_y_target_pre e)%Q).
Proof.
  intros Hbd Hlen Htot.
  destruct (tonemapping_prepare_arguments_total hist_y bit_depth pixel_totalnum
              ltac:(lia) Hlen Htot) as (s & Hrun & _ & Hsat & _).
  pose proof (bumped_saturated_pos bit_depth pixel_totalnum s Hbd Hsat) as Hpos0.
  eexists. split; [exact Hrun|].
  revert Hpos0. unfold Tonemapping.target_of_scan.
  cbn [Tonemapping.es_y_saturated Tonemapping.es_y_target_pre].
  set (y_saturated := if Tonemapping.sc_y_saturated s <? _ then _ else _).
  set (raw := (_ * _ / 2)%Q).
  set (floored := if Tonemapping.Qlt_bool raw 4 then 4%Q else raw).
  intros Hpos.
  assert (Hfl : (4 <= floored)%Q).
  { subst floored. destruct (Qlt_bool_spec raw 4) as [Hlt|Hge].
    - apply Qle_refl.
    - by apply Qnot_lt_le. }
  destruct (Qlt_bool_spec (inject_Z y_saturated) floored) as [Hlt|Hge];
    cbn [orb].
  - split; [apply quarter_le; lia|]. split; [by right|].
    apply quarter_ge_4.
  - destruct (Z.ltb_spec y_saturated 4) as [Hs|Hs].
    + split; [apply quarter_le; lia|]. split; [by right|].
      apply quarter_ge_4.
    + split; [by apply Qnot_lt_le|]. split; [by left|done].
Qed.



(** ** Worked instances *)








(** The run itself. *)
Example Block_split_haleq_example :
  Block_split_haleq ls_example (jk_example 77) hist_example 8 10 8
    (replicate 16 0%Q) =
  Done (replicate 8 0%Q ++
        [16 # 255; 128 # 255; 160 # 255; 192 # 255; 192 # 255; 192 # 255;
         254 # 255; 254 # 255]).
Proof. vm_compute. reflexivity. Qed.

Lemma Block_split_haleq_deterministic_witness :
  orel (fun r1 r2 : list Q =>
          alen r1 = alen r2 /\
          forall i, 0 <= i < 8 -> rd r1 (i + 8) = rd r2 (i + 8))
    (Block_split_haleq ls_example (jk_example 77) hist_example 8 10 8
       (replicate 16 0%Q))
    (Block_split_haleq ls_example (jk_example (-5)) hist_example 8 10 8
       (replicate 16 1%Q)).
Proof. apply Block_split_haleq_deterministic. reflexivity. Defined.

Lemma Haleq_terminates_witness :
  Haleq_fuel 9 [0; 0; 2; 2; 3] [0; 0; 2; 3] (replicate 256 0) 0 3 0 0 255
    = Haleq [0; 0; 2; 2; 3] [0; 0; 2; 3] (replicate 256 0) 0 3 0 0 255 /\
  Haleq [0; 0; 2; 2; 3] [0; 0; 2; 3] (replicate 256 0) 0 3 0 0 255
    <> OutOfFuel /\
  (5 < 0 -> Haleq_depth 0 = 1%nat) /\
  (0 <= 0 -> (Haleq_depth 0 <= 7)%nat).
Proof. apply Haleq_terminates. vm_compute. lia. Defined.

Lemma Block_split_haleq_frame_witness :
  alen (replicate 8 0%Q ++
        [16 # 255; 128 # 255; 160 # 255; 192 # 255; 192 # 255; 192 # 255;
         254 # 255; 254 # 255]) = alen (replicate 16 0%Q) /\
  forall k, ~ (8 <= k < 8 + 8) ->
    rd (replicate 8 0%Q ++
        [16 # 255; 128 # 255; 160 # 255; 192 # 255; 192 # 255; 192 # 255;
         254 # 255; 254 # 255]) k = rd (replicate 16 0%Q) k.
Proof.
  apply (proj1 Block_split_haleq_frame ls_example (jk_example 77)
           hist_example 8 10 8).
  vm_compute. reflexivity.
Defined.

Lemma y_saturated_positive_witness :
  exists e,
    Tonemapping.prepare_arguments hist_dark 8 1000 = Done e /\
    Tonemapping.es_y_saturated e =
      (if Tonemapping.sc_y_saturated (Tonemapping.es_scan e) =? 2 ^ 8 - 1
       then Tonemapping.sc_y_saturated (Tonemapping.es_scan e)
       else Tonemapping.sc_y_saturated (Tonemapping.es_scan e) + 1) /\
    1 <= Tonemapping.es_y_saturated e /\
    ~ (inject_Z (Tonemapping.es_y_saturated e) == 0)%Q.
Proof.
  apply y_saturated_positive; [lia|reflexivity|lia].
Defined.

Lemma y_target_bounds_witness :
  exists e,
    Tonemapping.prepare_arguments hist_dark 8 1000 = Done e /\
    (Tonemapping.es_y_target_pre e <= inject_Z (Tonemapping.es_y_saturated e))%Q /\
    ((4 <= Tonemapping.es_y_target_pre e)%Q \/
     Tonemapping.es_y_target_pre e = (inject_Z (Tonemapping.es_y_saturated e) / 4)%Q) /\
    (16 <= Tonemapping.es_y_saturated e -> (4 <= Tonemapping.es_y_target_pre e)%Q).
Proof.
  apply y_target_bounds; [lia|reflexivity|lia].
Defined.


